(** * Two-body orbit and double pendulum: the vector fields and their drivers

    A shallow embedding of the computational core of the two notebooks
    [Orbit-final_v1.ipynb] and [pendulum-final_v1.ipynb]: the classes
    [Orbit] and [DoublePendulum] with their methods [dy_dt] and
    [solve_ode], and the helper [start_stop_indices].

    Number models.  The notebooks compute on binary64 floats.  The first
    model takes a finite float as the real number it is and computes
    exactly: it stands for the code wherever the binary64 result differs
    from the exact one by rounding only, which the theorems that need it
    secure by bounds on the magnitudes.  It keeps the behaviour of a NumPy
    division whose divisor is zero: it does not raise, it yields an
    infinity or a NaN that flows into the result.  The second model is
    binary64 itself, and shows on explicit inputs what the code computes
    where rounding, absorption or underflow changes the kind of the
    result. *)

From Stdlib Require Import ZArith Reals Lra Psatz List Lia Sorted.
From Stdlib Require String.
From Stdlib Require Floats.
Import ListNotations.
Open Scope R_scope.

(** ** Python exceptions and results *)

Inductive exn : Type :=
| IndexError   (* a subscript outside the sequence *)
| ValueError.  (* unpacking a sequence of the wrong size, argmin of nothing *)

Inductive result (A : Type) : Type :=
| Ok (a : A)
| Raise (e : exn).

Arguments Ok {A} a.
Arguments Raise {A} e.

Definition bind {A B : Type} (c : result A) (k : A -> result B) : result B :=
  match c with
  | Ok a => k a
  | Raise e => Raise e
  end.

Declare Scope py_scope.
Delimit Scope py_scope with py.
Notation "x <- c ;; k" := (bind c (fun x => k))
  (at level 61, c at next level, right associativity) : py_scope.

(** ** Values a float expression can take *)

Inductive fval : Type :=
| Num (r : R)   (* a finite number *)
| Inf           (* an infinity, the sign of which is not tracked *)
| NaN.          (* not a number *)

Definition is_finite (v : fval) : bool :=
  match v with
  | Num _ => true
  | _ => false
  end.

(** The true division of NumPy on finite operands: [x / 0] is an infinity
    for a nonzero [x], and [0 / 0] is NaN. *)
Definition fdiv (a b : R) : fval :=
  if Req_dec_T b 0
  then (if Req_dec_T a 0 then NaN else Inf)
  else Num (a / b).

(** Subscripting [y[i]] with a non-negative literal index. *)
Definition getitem {A : Type} (y : list A) (i : nat) : result A :=
  match nth_error y i with
  | Some a => Ok a
  | None => Raise IndexError
  end.

(** Subscripting [y[-1]]. *)
Definition getitem_last {A : Type} (y : list A) : result A :=
  match y with
  | [] => Raise IndexError
  | a :: y' => Ok (last y' a)
  end.

(** ** The external solver

    [solve_ivp] belongs to SciPy, not to the notebooks.  A call to it is kept
    as a node of the program, carrying the arguments it was called with; the
    program goes on with whatever the solver answers. *)

Record ivp_request : Type := {
  req_fun : R -> list R -> result (list fval);
  req_t_span : R * R;
  req_y0 : list R;
  req_t_eval : list R;
  req_atol : R;
  req_rtol : R
}.

(** Of the object [solve_ivp] returns, the notebooks read the field [y]
    only: one row per state component. *)
Record OdeResult : Type := {
  sol_y : list (list fval)
}.

Inductive prog (A : Type) : Type :=
| Ret (a : A)
| Throw (e : exn)
| SolveIvp (req : ivp_request) (k : OdeResult -> prog A).

Arguments Ret {A} a.
Arguments Throw {A} e.
Arguments SolveIvp {A} req k.

Definition lift {A B : Type} (c : result A) (k : A -> prog B) : prog B :=
  match c with
  | Ok a => k a
  | Raise e => Throw e
  end.

(** Running a program against a solver; an exception of the solver
    propagates. *)
Fixpoint run {A : Type} (solver : ivp_request -> result OdeResult)
         (p : prog A) : result A :=
  match p with
  | Ret a => Ok a
  | Throw e => Raise e
  | SolveIvp req k =>
      match solver req with
      | Ok sol => run solver (k sol)
      | Raise e => Raise e
      end
  end.

(** The interface the notebooks rely on: for sample times in increasing
    order the solver answers with one row per component of the initial
    state, and every row has one entry per sample time. *)
Definition solver_contract (solver : ivp_request -> result OdeResult) : Prop :=
  forall req,
    Sorted Rle (req_t_eval req) ->
    exists sol,
      solver req = Ok sol /\
      length (sol_y sol) = length (req_y0 req) /\
      Forall (fun row => length row = length (req_t_eval req)) (sol_y sol).

(** The default of [abserr] and [relerr]. *)
Definition default_tol : R := 1.0e-9.

Definition with_default (o : option R) (d : R) : R :=
  match o with
  | Some x => x
  | None => d
  end.

(** ** The two-body system *)

Module Orbit.

Record Orbit : Type := {
  m1 : R;
  m2 : R;
  G : R
}.

(** [Orbit(m1=1., m2=1., G=1.)] *)
Definition init (m1 m2 G : option R) : Orbit :=
  {| m1 := with_default m1 1; m2 := with_default m2 1; G := with_default G 1 |}.

(** The separation [dom] of the two positions. *)
Definition dom (y0 y2 y4 y6 : R) : R :=
  sqrt ((y0 - y4) ^ 2 + (y2 - y6) ^ 2).

Definition dy_dt (self : Orbit) (t : R) (y : list R) : result (list fval) :=
  (y0 <- getitem y 0 ;;
   y4 <- getitem y 4 ;;
   y2 <- getitem y 2 ;;
   y6 <- getitem y 6 ;;
   let dom := dom y0 y2 y4 y6 in
   y1 <- getitem y 1 ;;
   y3 <- getitem y 3 ;;
   y5 <- getitem y 5 ;;
   y7 <- getitem y 7 ;;
   Ok [ Num y1; fdiv (G self * m2 self * (y4 - y0)) (dom ^ 3);
        Num y3; fdiv (G self * m2 self * (y6 - y2)) (dom ^ 3);
        Num y5; fdiv (- G self * m1 self * (y4 - y0)) (dom ^ 3);
        Num y7; fdiv (- G self * m1 self * (y6 - y2)) (dom ^ 3) ])%py.

Definition solve_ode (self : Orbit) (t_pts : list R)
    (x_1_0 x_1_dot_0 y_1_0 y_1_dot_0 x_2_0 x_2_dot_0 y_2_0 y_2_dot_0 : R)
    (abserr relerr : option R)
  : prog (list fval * list fval * list fval * list fval *
          list fval * list fval * list fval * list fval) :=
  let abserr := with_default abserr default_tol in
  let relerr := with_default relerr default_tol in
  let y := [x_1_0; x_1_dot_0; y_1_0; y_1_dot_0;
            x_2_0; x_2_dot_0; y_2_0; y_2_dot_0] in
  lift (getitem t_pts 0) (fun t_first =>
  lift (getitem_last t_pts) (fun t_last =>
  SolveIvp {| req_fun := dy_dt self;
              req_t_span := (t_first, t_last);
              req_y0 := y;
              req_t_eval := t_pts;
              req_atol := abserr;
              req_rtol := relerr |}
    (fun solution =>
       match sol_y solution with
       | [x_1; x_dot_1; y_1; y_dot_1; x_2; x_dot_2; y_2; y_dot_2] =>
           Ret (x_1, x_dot_1, y_1, y_dot_1, x_2, x_dot_2, y_2, y_dot_2)
       | _ => Throw ValueError
       end))).

End Orbit.

(** ** The double pendulum *)

Module DoublePendulum.

Record DoublePendulum : Type := {
  L1 : R;
  L2 : R;
  m1 : R;
  m2 : R;
  g : R
}.

(** [DoublePendulum(L1=1., L2=1., m1=1., m2=1., g=1.)] *)
Definition init (L1 L2 m1 m2 g : option R) : DoublePendulum :=
  {| L1 := with_default L1 1; L2 := with_default L2 1;
     m1 := with_default m1 1; m2 := with_default m2 1;
     g := with_default g 1 |}.

(** The factor both divisors share. *)
Definition denom_factor (self : DoublePendulum) (y0 y2 : R) : R :=
  2 * m1 self + m2 self - m2 self * cos (2 * y0 - 2 * y2).

(** The divisor of the angular acceleration of the upper arm. *)
Definition denom_1 (self : DoublePendulum) (y0 y2 : R) : R :=
  L1 self * denom_factor self y0 y2.

(** The divisor of the angular acceleration of the lower arm. *)
Definition denom_2 (self : DoublePendulum) (y0 y2 : R) : R :=
  L2 self * denom_factor self y0 y2.

Definition numer_1 (self : DoublePendulum) (y0 y1 y2 y3 : R) : R :=
  - g self * (2 * m1 self + m2 self) * sin y0
  - m2 self * g self * sin (y0 - 2 * y2)
  - 2 * sin (y0 - y2) * m2 self
    * (y3 ^ 2 * L2 self + y1 ^ 2 * L1 self * cos (y0 - y2)).

Definition numer_2 (self : DoublePendulum) (y0 y1 y2 y3 : R) : R :=
  2 * sin (y0 - y2)
  * (y1 ^ 2 * L1 self * (m1 self + m2 self)
     + (m1 self + m2 self) * g self * cos y0
     + y3 ^ 2 * L2 self * m2 self * cos (y0 - y2)).

Definition dy_dt (self : DoublePendulum) (t : R) (y : list R)
  : result (list fval) :=
  (y1 <- getitem y 1 ;;
   y0 <- getitem y 0 ;;
   y2 <- getitem y 2 ;;
   y3 <- getitem y 3 ;;
   Ok [ Num y1;
        fdiv (numer_1 self y0 y1 y2 y3) (denom_1 self y0 y2);
        Num y3;
        fdiv (numer_2 self y0 y1 y2 y3) (denom_2 self y0 y2) ])%py.

Definition solve_ode (self : DoublePendulum) (t_pts : list R)
    (phi_1_0 phi_1_dot_0 phi_2_0 phi_2_dot_0 : R)
    (abserr relerr : option R)
  : prog (list fval * list fval * list fval * list fval) :=
  let abserr := with_default abserr default_tol in
  let relerr := with_default relerr default_tol in
  let y := [phi_1_0; phi_1_dot_0; phi_2_0; phi_2_dot_0] in
  lift (getitem t_pts 0) (fun t_first =>
  lift (getitem_last t_pts) (fun t_last =>
  SolveIvp {| req_fun := dy_dt self;
              req_t_span := (t_first, t_last);
              req_y0 := y;
              req_t_eval := t_pts;
              req_atol := abserr;
              req_rtol := relerr |}
    (fun solution =>
       match sol_y solution with
       | [phi_1; phi_1_dot; phi_2; phi_2_dot] =>
           Ret (phi_1, phi_1_dot, phi_2, phi_2_dot)
       | _ => Throw ValueError
       end))).

End DoublePendulum.

(** ** The plotting helper of the orbit notebook *)

(** [a.argmin()] of NumPy on a one-dimensional array: a scan that keeps the
    least value met so far and its index, and replaces them on a strictly
    smaller entry only, so that of several least entries the first wins.
    An empty array raises. *)
Fixpoint argmin_scan (a : list R) (i : nat) (mp : R) (min_ind : nat) : nat :=
  match a with
  | [] => min_ind
  | x :: a' =>
      if Rlt_dec x mp
      then argmin_scan a' (S i) x i
      else argmin_scan a' (S i) mp min_ind
  end.

Definition argmin (a : list R) : result nat :=
  match a with
  | [] => Raise ValueError
  | x :: a' => Ok (argmin_scan a' 1 x 0)
  end.

(** [np.fabs(t_pts - c)]: the subtraction broadcasts the scalar. *)
Definition fabs_diff (t_pts : list R) (c : R) : list R :=
  map (fun t => Rabs (t - c)) t_pts.

(** The definition in the notebook's sixth code cell. *)
Definition start_stop_indices (t_pts : list R) (plot_start plot_stop : R)
  : result (nat * nat) :=
  (start_index <- argmin (fabs_diff t_pts plot_start) ;;
   stop_index <- argmin (fabs_diff t_pts plot_stop) ;;
   Ok (start_index, stop_index))%py.

(** The definition in the seventh code cell, which rebinds the name. *)
Definition start_stop_indices_again (t_pts : list R)
    (plot_start plot_stop : R) : result (nat * nat) :=
  (start_index <- argmin (fabs_diff t_pts plot_start) ;;
   stop_index <- argmin (fabs_diff t_pts plot_stop) ;;
   Ok (start_index, stop_index))%py.

(** ** The physics the two-body field is compared with *)

(** Euclidean distance of two points of the plane. *)
Definition euclid (p q : R * R) : R :=
  sqrt ((fst p - fst q) ^ 2 + (snd p - snd q) ^ 2).

(** Newton's law: the acceleration of a body at [r] under the attraction of
    a mass [m] at [r'] is [G m (r' - r) / d^3], [d] the distance. *)
Definition newton_acc (G m : R) (r r' : R * R) : R * R :=
  (G * m * (fst r' - fst r) / euclid r r' ^ 3,
   G * m * (snd r' - snd r) / euclid r r' ^ 3).

(** ** Concrete systems and states of the notebooks *)

(** The state the orbit notebook starts from, and its system. *)
Definition notebook_orbit : Orbit.Orbit :=
  Orbit.init (Some 20) (Some 1) (Some 20).

Definition notebook_orbit_state : list R :=
  [0.1; 0; 0; 0.75; - (20 / 1) * 0.1; - (20 / 1) * 0; - (20 / 1) * 0;
   - (20 / 1) * 0.75].

(** The pendulum of the pendulum notebook: every parameter is 1. *)
Definition notebook_pendulum : DoublePendulum.DoublePendulum :=
  DoublePendulum.init (Some 1) (Some 1) (Some 1) (Some 1) (Some 1).

(** ** A solver to run the drivers against *)

(** A solver that answers with the initial state at every sample time. *)
Definition constant_solver (req : ivp_request) : result OdeResult :=
  Ok {| sol_y := map (fun c => map (fun _ => Num c) (req_t_eval req))
                     (req_y0 req) |}.

(** Three sample times. *)
Definition three_samples : list R := [0; 1; 2].

(** ** Negation of a float value *)

Definition fopp (v : fval) : fval :=
  match v with
  | Num r => Num (- r)
  | Inf => Inf
  | NaN => NaN
  end.

(** ** Mechanical quantities of the two-body system *)

(** Kinetic plus potential energy of a state
    [(x1, vx1, y1, vy1, x2, vx2, y2, vy2)]. *)
Definition orbit_energy (self : Orbit.Orbit)
    (y0 y1 y2 y3 y4 y5 y6 y7 : R) : R :=
  Orbit.m1 self * (y1 ^ 2 + y3 ^ 2) / 2
  + Orbit.m2 self * (y5 ^ 2 + y7 ^ 2) / 2
  - Orbit.G self * Orbit.m1 self * Orbit.m2 self / Orbit.dom y0 y2 y4 y6.

(** ** The plotting helper [plot_y_vs_x]

    The helper only talks to a Matplotlib axis.  Its model is the list of
    the calls it makes on that axis, in order, together with what it
    returns or raises; what Matplotlib does on a call is not modelled.  An
    axis is named by a number, [gca] being the one [plt.gca()] returns. *)

Inductive ax_call : Type :=
| Semilogy (x y : list R) (label color linestyle : option String.string)
| Loglog (x y : list R) (label color linestyle : option String.string)
| Plot (x y : list R) (label color linestyle : option String.string)
| Legend
| SetTitle (title : String.string)
| SetXlabel (s : String.string)
| SetYlabel (s : String.string).

Definition is_draw (c : ax_call) : bool :=
  match c with
  | Semilogy _ _ _ _ _ | Loglog _ _ _ _ _ | Plot _ _ _ _ _ => true
  | _ => false
  end.

(** The calls made while labelling the axes from [axis_labels]. *)
Definition label_axes (axis_labels : option (list String.string))
  : list ax_call * result unit :=
  match axis_labels with
  | None => ([], Ok tt)
  | Some labels =>
      match getitem labels 0 with
      | Raise e => ([], Raise e)
      | Ok xl =>
          match getitem labels 1 with
          | Raise e => ([SetXlabel xl], Raise e)
          | Ok yl => ([SetXlabel xl; SetYlabel yl], Ok tt)
          end
      end
  end.

(** Returns the axis the calls went to, the calls, and the pair [(ax, line)]
    the helper returns, the line being named by the call that drew it. *)
Definition plot_y_vs_x (gca : nat) (x y : list R)
    (axis_labels : option (list String.string))
    (label title color linestyle : option String.string)
    (semilogy loglog : bool) (ax : option nat)
  : nat * list ax_call * result (nat * ax_call) :=
  let ax := match ax with
            | None => gca
            | Some a => a
            end in
  let line :=
    if semilogy then Semilogy x y label color linestyle
    else if loglog then Loglog x y label color linestyle
    else Plot x y label color linestyle in
  let legend := match label with
                | Some _ => [Legend]
                | None => []
                end in
  let titled := match title with
                | Some s => [SetTitle s]
                | None => []
                end in
  let '(labelled, outcome) := label_axes axis_labels in
  (ax, [line] ++ legend ++ titled ++ labelled,
   match outcome with
   | Ok _ => Ok (ax, line)
   | Raise e => Raise e
   end).

(** ** The cells that drive the solvers *)

(** The least integer not below [x]. *)
Definition ceil (x : R) : Z := (1 - up (- x))%Z.

(** [np.arange(start, stop, step)] on floats: [ceil((stop - start) / step)]
    values [start + i * step], none when that count is not positive.  A
    zero step raises, which is [None] here. *)
Definition arange (start stop step : R) : option (list R) :=
  if Req_dec_T step 0 then None
  else Some (map (fun i => start + INR i * step)
                 (seq 0 (Z.to_nat (ceil ((stop - start) / step))))).

(** [t_pts = np.arange(t_start, t_end+delta_t, delta_t)], the line both
    notebooks build their sample times with. *)
Definition cell_t_pts (t_start t_end delta_t : R) : option (list R) :=
  arange t_start (t_end + delta_t) delta_t.

(** The initial conditions of the second body in the orbit notebook,
    [x_2_0, x_2_dot_0 = - (m1/m2) * x_1_0, - (m1/m2) * x_1_dot_0] and the
    same for [y].  The masses are Python floats there, so [m1/m2] raises on
    [m2 = 0], which is [None] here. *)
Definition cell_second_body (m1 m2 x_1_0 x_1_dot_0 y_1_0 y_1_dot_0 : R)
  : option (R * R * R * R) :=
  if Req_dec_T m2 0 then None
  else Some (- (m1 / m2) * x_1_0, - (m1 / m2) * x_1_dot_0,
             - (m1 / m2) * y_1_0, - (m1 / m2) * y_1_dot_0).

(** ** Evaluating the helper on concrete sample times *)

Ltac eval_nearest :=
  unfold start_stop_indices, fabs_diff, three_samples, argmin;
  cbn [map argmin_scan bind];
  unfold Rabs;
  repeat match goal with
         | |- context [Rcase_abs ?x] => destruct (Rcase_abs x); try lra
         end;
  repeat match goal with
         | |- context [Rlt_dec ?x ?y] => destruct (Rlt_dec x y); try lra
         end;
  reflexivity.

(** ** Binary64 arithmetic

    The second number model: IEEE 754 binary64 as the Standard Library
    specifies it, with rounding to nearest even, signed zeros, infinities
    and NaN.  It is used on explicit inputs, to show what the code computes
    where exact arithmetic and binary64 part ways. *)

Module B64.
Import SpecFloat FloatOps PrimFloat.

Definition t : Type := spec_float.

Definition add : t -> t -> t := SFadd prec emax.
Definition sub : t -> t -> t := SFsub prec emax.
Definition mul : t -> t -> t := SFmul prec emax.
Definition div : t -> t -> t := SFdiv prec emax.
Definition sqrt : t -> t := SFsqrt prec emax.
Definition opp : t -> t := SFopp.
Definition eqb : t -> t -> bool := SFeqb.
Definition ltb : t -> t -> bool := SFltb.
Definition leb : t -> t -> bool := SFleb.

(** [x ** n] for a positive whole exponent, rounded once. *)
Definition pow (x : t) (n : positive) : t :=
  let odd := match n with
             | xO _ => false
             | _ => true
             end in
  match x with
  | S754_nan => S754_nan
  | S754_zero s => S754_zero (andb s odd)
  | S754_infinity s => S754_infinity (andb s odd)
  | S754_finite s m e =>
      binary_round prec emax (andb s odd) (Pos.pow m n) (Z.mul (Zpos n) e)
  end.

Definition is_finite (x : t) : bool :=
  match x with
  | S754_zero _ | S754_finite _ _ _ => true
  | _ => false
  end.

Definition is_zero (x : t) : bool :=
  match x with
  | S754_zero _ => true
  | _ => false
  end.

(** Neither a zero nor NaN: a divisor that turns a zero into a zero. *)
Definition is_nonzero (x : t) : bool :=
  match x with
  | S754_zero _ | S754_nan => false
  | _ => true
  end.

Definition nan : t := S754_nan.
Definition zero : t := S754_zero false.
Definition one : t := Eval vm_compute in Prim2SF 1%float.
Definition two : t := Eval vm_compute in Prim2SF 2%float.

(** The float [1e-20]. *)
Definition f_1e_20 : t := Eval vm_compute in Prim2SF 0x1.79ca10c924223p-67%float.

(** The float [1e-200]. *)
Definition f_1e_200 : t := Eval vm_compute in Prim2SF 0x1.87e92154ef7acp-665%float.
End B64.

(** The two-body field on binary64.  The state holds NumPy scalars, as
    when the solver calls the field, so that a power that overflows gives an
    infinity. *)
Module Orbit64.

Record Orbit : Type := {
  m1 : B64.t;
  m2 : B64.t;
  G : B64.t
}.

Definition dom (y0 y2 y4 y6 : B64.t) : B64.t :=
  B64.sqrt (B64.add (B64.pow (B64.sub y0 y4) 2) (B64.pow (B64.sub y2 y6) 2)).

Definition dy_dt (self : Orbit) (t : B64.t) (y : list B64.t)
  : result (list B64.t) :=
  (y0 <- getitem y 0 ;;
   y4 <- getitem y 4 ;;
   y2 <- getitem y 2 ;;
   y6 <- getitem y 6 ;;
   let dom := dom y0 y2 y4 y6 in
   y1 <- getitem y 1 ;;
   y3 <- getitem y 3 ;;
   y5 <- getitem y 5 ;;
   y7 <- getitem y 7 ;;
   Ok [ y1;
        B64.div (B64.mul (B64.mul (G self) (m2 self)) (B64.sub y4 y0))
                (B64.pow dom 3);
        y3;
        B64.div (B64.mul (B64.mul (G self) (m2 self)) (B64.sub y6 y2))
                (B64.pow dom 3);
        y5;
        B64.div (B64.mul (B64.mul (B64.opp (G self)) (m1 self))
                         (B64.sub y4 y0))
                (B64.pow dom 3);
        y7;
        B64.div (B64.mul (B64.mul (B64.opp (G self)) (m1 self))
                         (B64.sub y6 y2))
                (B64.pow dom 3) ])%py.

End Orbit64.

(** The pendulum field on binary64. *)
Module DoublePendulum64.

(** The sine and cosine of the C library.  Their values are fixed by the
    standard at zero only, [sin(+-0) = +-0] and [cos(+-0) = 1]; off zero
    they are whatever the library at hand computes. *)
Record libm : Type := {
  libm_sin : B64.t -> B64.t;
  libm_cos : B64.t -> B64.t
}.

Definition np_sin (lm : libm) (x : B64.t) : B64.t :=
  match x with
  | SpecFloat.S754_zero _ => x
  | _ => libm_sin lm x
  end.

Definition np_cos (lm : libm) (x : B64.t) : B64.t :=
  match x with
  | SpecFloat.S754_zero _ => B64.one
  | _ => libm_cos lm x
  end.

Record DoublePendulum : Type := {
  L1 : B64.t;
  L2 : B64.t;
  m1 : B64.t;
  m2 : B64.t;
  g : B64.t
}.

Definition denom_factor (lm : libm) (self : DoublePendulum)
    (y0 y2 : B64.t) : B64.t :=
  B64.sub (B64.add (B64.mul B64.two (m1 self)) (m2 self))
          (B64.mul (m2 self)
                   (np_cos lm (B64.sub (B64.mul B64.two y0)
                                       (B64.mul B64.two y2)))).

Definition denom_1 (lm : libm) (self : DoublePendulum)
    (y0 y2 : B64.t) : B64.t :=
  B64.mul (L1 self) (denom_factor lm self y0 y2).

Definition denom_2 (lm : libm) (self : DoublePendulum)
    (y0 y2 : B64.t) : B64.t :=
  B64.mul (L2 self) (denom_factor lm self y0 y2).

Definition numer_1 (lm : libm) (self : DoublePendulum)
    (y0 y1 y2 y3 : B64.t) : B64.t :=
  B64.sub
    (B64.sub
       (B64.mul (B64.mul (B64.opp (g self))
                         (B64.add (B64.mul B64.two (m1 self)) (m2 self)))
                (np_sin lm y0))
       (B64.mul (B64.mul (m2 self) (g self))
                (np_sin lm (B64.sub y0 (B64.mul B64.two y2)))))
    (B64.mul
       (B64.mul (B64.mul B64.two (np_sin lm (B64.sub y0 y2))) (m2 self))
       (B64.add (B64.mul (B64.pow y3 2) (L2 self))
                (B64.mul (B64.mul (B64.pow y1 2) (L1 self))
                         (np_cos lm (B64.sub y0 y2))))).

Definition numer_2 (lm : libm) (self : DoublePendulum)
    (y0 y1 y2 y3 : B64.t) : B64.t :=
  B64.mul
    (B64.mul B64.two (np_sin lm (B64.sub y0 y2)))
    (B64.add
       (B64.add
          (B64.mul (B64.mul (B64.pow y1 2) (L1 self))
                   (B64.add (m1 self) (m2 self)))
          (B64.mul (B64.mul (B64.add (m1 self) (m2 self)) (g self))
                   (np_cos lm y0)))
       (B64.mul (B64.mul (B64.mul (B64.pow y3 2) (L2 self)) (m2 self))
                (np_cos lm (B64.sub y0 y2)))).

(** The lengths, the lower mass and the products of the parameters that
    meet a zero at the state of rest are finite: nothing overflows
    there. *)
Definition no_overflow_at_rest (self : DoublePendulum) : bool :=
  B64.is_finite (L1 self)
  && B64.is_finite (L2 self)
  && B64.is_finite (m2 self)
  && B64.is_finite (B64.add (m1 self) (m2 self))
  && B64.is_finite (B64.mul (B64.opp (g self))
                            (B64.add (B64.mul B64.two (m1 self)) (m2 self)))
  && B64.is_finite (B64.mul (m2 self) (g self))
  && B64.is_finite (B64.mul (B64.mul (B64.add (m1 self) (m2 self)) (g self))
                            B64.one).

Definition dy_dt (lm : libm) (self : DoublePendulum) (t : B64.t)
    (y : list B64.t) : result (list B64.t) :=
  (y1 <- getitem y 1 ;;
   y0 <- getitem y 0 ;;
   y2 <- getitem y 2 ;;
   y3 <- getitem y 3 ;;
   Ok [ y1;
        B64.div (numer_1 lm self y0 y1 y2 y3) (denom_1 lm self y0 y2);
        y3;
        B64.div (numer_2 lm self y0 y1 y2 y3) (denom_2 lm self y0 y2) ])%py.

End DoublePendulum64.

(** ** Inputs on which binary64 and exact arithmetic differ *)

(** A pendulum with unit lengths and gravity whose upper bob, of mass
    [1e-20], is far lighter than the lower one, of mass [1]. *)
Definition light_upper_bob : DoublePendulum64.DoublePendulum :=
  {| DoublePendulum64.L1 := B64.one;
     DoublePendulum64.L2 := B64.one;
     DoublePendulum64.m1 := B64.f_1e_20;
     DoublePendulum64.m2 := B64.one;
     DoublePendulum64.g := B64.one |}.

(** The pendulum of the notebook on binary64: every parameter is [1.]. *)
Definition notebook_pendulum64 : DoublePendulum64.DoublePendulum :=
  {| DoublePendulum64.L1 := B64.one;
     DoublePendulum64.L2 := B64.one;
     DoublePendulum64.m1 := B64.one;
     DoublePendulum64.m2 := B64.one;
     DoublePendulum64.g := B64.one |}.

(** A C library to run explicit inputs against; at zero, where the
    standard fixes the values, it is not consulted. *)
Definition stub_libm : DoublePendulum64.libm :=
  {| DoublePendulum64.libm_sin := fun x => x;
     DoublePendulum64.libm_cos := fun _ => B64.one |}.

(** The pendulum at rest, hanging straight down. *)
Definition rest64 : list B64.t := [B64.zero; B64.zero; B64.zero; B64.zero].

(** Two bodies of unit mass under a unit constant. *)
Definition unit_orbit64 : Orbit64.Orbit :=
  {| Orbit64.m1 := B64.one; Orbit64.m2 := B64.one; Orbit64.G := B64.one |}.

(** Two bodies at rest, [1e-200] apart on the x axis. *)
Definition close_bodies64 : list B64.t :=
  [B64.f_1e_200; B64.zero; B64.zero; B64.zero;
   B64.zero; B64.zero; B64.zero; B64.zero].

(** ** Magnitudes the exact model stands for

    Bounds under which the binary64 evaluation has no overflow, no
    underflow to zero and no absorption of one mass by the other, so that
    it differs from the exact value by rounding only. *)

Definition moderate (x : R) : Prop := Rabs x <= 10 ^ 30.

Definition well_scaled (x : R) : Prop := / 10 ^ 30 <= x <= 10 ^ 30.

Definition moderate_pendulum (self : DoublePendulum.DoublePendulum) : Prop :=
  well_scaled (DoublePendulum.L1 self) /\
  well_scaled (DoublePendulum.L2 self) /\
  well_scaled (DoublePendulum.m1 self) /\
  0 <= DoublePendulum.m2 self <= 10 ^ 6 * DoublePendulum.m1 self /\
  moderate (DoublePendulum.g self).

Definition moderate_orbit (self : Orbit.Orbit) : Prop :=
  moderate (Orbit.m1 self) /\ moderate (Orbit.m2 self) /\
  moderate (Orbit.G self).

(** Every entry of an explicit list is of moderate magnitude. *)
Ltac moderate_entries :=
  unfold moderate;
  repeat (apply Forall_cons; [apply Rabs_le; lra |]);
  apply Forall_nil.

(** * Properties *)

(** ** Divisions *)

Lemma fdiv_nonzero (a b : R) : b <> 0 -> fdiv a b = Num (a / b).
Proof.
  intros Hb. unfold fdiv.
  destruct (Req_dec_T b 0) as [E | _]; [contradiction | reflexivity].
Qed.

Lemma fdiv_zero_zero : fdiv 0 0 = NaN.
Proof.
  unfold fdiv.
  destruct (Req_dec_T 0 0) as [_ | N]; [reflexivity | now elim N].
Qed.

Lemma fdiv_by_zero (a : R) : is_finite (fdiv a 0) = false.
Proof.
  unfold fdiv.
  destruct (Req_dec_T 0 0) as [_ | N]; [| now elim N].
  now destruct (Req_dec_T a 0).
Qed.

Lemma fdiv_finite_iff (a b : R) : is_finite (fdiv a b) = true <-> b <> 0.
Proof.
  split.
  - intros F E. subst b. rewrite fdiv_by_zero in F. discriminate.
  - intros N. now rewrite fdiv_nonzero.
Qed.

(** ** Distances *)

Lemma sum_sq_nonneg (a b : R) : 0 <= a ^ 2 + b ^ 2.
Proof. nra. Qed.

Lemma sum_sq_zero (a b : R) : a ^ 2 + b ^ 2 = 0 <-> a = 0 /\ b = 0.
Proof. split; [intros H; split; nra | intros [-> ->]; ring]. Qed.

Lemma euclid_sym (p q : R * R) : euclid p q = euclid q p.
Proof. unfold euclid. f_equal. ring. Qed.

Lemma euclid_sq (p q : R * R) :
  euclid p q ^ 2 = (fst p - fst q) ^ 2 + (snd p - snd q) ^ 2.
Proof.
  unfold euclid.
  set (s := (fst p - fst q) ^ 2 + (snd p - snd q) ^ 2).
  replace (sqrt s ^ 2) with (sqrt s * sqrt s) by ring.
  apply sqrt_sqrt, sum_sq_nonneg.
Qed.

Lemma dom_euclid (y0 y2 y4 y6 : R) :
  Orbit.dom y0 y2 y4 y6 = euclid (y0, y2) (y4, y6).
Proof. reflexivity. Qed.

Lemma dom_zero_iff (y0 y2 y4 y6 : R) :
  Orbit.dom y0 y2 y4 y6 = 0 <-> y0 = y4 /\ y2 = y6.
Proof.
  unfold Orbit.dom. split.
  - intros H. apply sqrt_eq_0 in H; [| apply sum_sq_nonneg].
    apply sum_sq_zero in H. lra.
  - intros [-> ->].
    replace ((y4 - y4) ^ 2 + (y6 - y6) ^ 2) with 0 by ring.
    apply sqrt_0.
Qed.

Lemma dom_cube_zero_iff (y0 y2 y4 y6 : R) :
  Orbit.dom y0 y2 y4 y6 ^ 3 = 0 <-> y0 = y4 /\ y2 = y6.
Proof.
  rewrite <- dom_zero_iff. split.
  - intros H. destruct (Req_dec_T (Orbit.dom y0 y2 y4 y6) 0) as [E | N];
      [exact E | now apply (pow_nonzero _ 3) in N].
  - intros ->. ring.
Qed.

(** The magnitude of Newton's acceleration falls off with the square of the
    distance. *)
Lemma newton_acc_inverse_square (G m : R) (r r' : R * R) :
  euclid r r' <> 0 ->
  fst (newton_acc G m r r') ^ 2 + snd (newton_acc G m r r') ^ 2
  = (G * m / euclid r r' ^ 2) ^ 2.
Proof.
  intros Hd. unfold newton_acc. cbn [fst snd].
  pose proof (euclid_sq r r') as Hsq.
  set (d := euclid r r') in *.
  replace ((G * m * (fst r' - fst r) / d ^ 3) ^ 2
           + (G * m * (snd r' - snd r) / d ^ 3) ^ 2)
    with ((G * m) ^ 2 * ((fst r - fst r') ^ 2 + (snd r - snd r') ^ 2)
          / (d ^ 3) ^ 2) by (field; exact Hd).
  rewrite <- Hsq. field. exact Hd.
Qed.

(** With [G m > 0] it points from [r] towards [r']. *)
Lemma newton_acc_towards (G m : R) (r r' : R * R) :
  0 < G * m -> euclid r r' <> 0 ->
  0 < fst (newton_acc G m r r') * (fst r' - fst r)
      + snd (newton_acc G m r r') * (snd r' - snd r).
Proof.
  intros Hgm Hd. unfold newton_acc. cbn [fst snd].
  pose proof (euclid_sq r r') as Hsq.
  assert (Hpos : 0 < euclid r r').
  { unfold euclid in *. pose proof (sqrt_pos
      ((fst r - fst r') ^ 2 + (snd r - snd r') ^ 2)). lra. }
  set (d := euclid r r') in *.
  replace (G * m * (fst r' - fst r) / d ^ 3 * (fst r' - fst r)
           + G * m * (snd r' - snd r) / d ^ 3 * (snd r' - snd r))
    with (G * m * ((fst r - fst r') ^ 2 + (snd r - snd r') ^ 2) / d ^ 3)
    by (field; exact Hd).
  rewrite <- Hsq.
  replace (G * m * d ^ 2 / d ^ 3) with (G * m / d) by (field; exact Hd).
  now apply Rdiv_lt_0_compat.
Qed.

(** ** The two-body field *)

(** What [Orbit.dy_dt] returns on a state of eight components whose two
    positions differ. *)
Lemma orbit_dy_dt_apart (self : Orbit.Orbit) (t y0 y1 y2 y3 y4 y5 y6 y7 : R) :
  Orbit.dom y0 y2 y4 y6 <> 0 ->
  Orbit.dy_dt self t [y0; y1; y2; y3; y4; y5; y6; y7] =
  Ok [ Num y1;
       Num (Orbit.G self * Orbit.m2 self * (y4 - y0) / Orbit.dom y0 y2 y4 y6 ^ 3);
       Num y3;
       Num (Orbit.G self * Orbit.m2 self * (y6 - y2) / Orbit.dom y0 y2 y4 y6 ^ 3);
       Num y5;
       Num (- Orbit.G self * Orbit.m1 self * (y4 - y0) / Orbit.dom y0 y2 y4 y6 ^ 3);
       Num y7;
       Num (- Orbit.G self * Orbit.m1 self * (y6 - y2) / Orbit.dom y0 y2 y4 y6 ^ 3) ].
Proof.
  intros Hd. unfold Orbit.dy_dt. cbn [getitem nth_error bind].
  assert (H3 : Orbit.dom y0 y2 y4 y6 ^ 3 <> 0) by now apply pow_nonzero.
  now rewrite !fdiv_nonzero.
Qed.

(** What it returns when the two positions coincide. *)
Lemma orbit_dy_dt_coincident (self : Orbit.Orbit) (t x y y1 y3 y5 y7 : R) :
  Orbit.dy_dt self t [x; y1; y; y3; x; y5; y; y7] =
  Ok [Num y1; NaN; Num y3; NaN; Num y5; NaN; Num y7; NaN].
Proof.
  unfold Orbit.dy_dt. cbn [getitem nth_error bind].
  assert (Hd : Orbit.dom x y x y ^ 3 = 0) by now apply dom_cube_zero_iff.
  rewrite Hd.
  replace (x - x) with 0 by ring. replace (y - y) with 0 by ring.
  rewrite !Rmult_0_r. now rewrite fdiv_zero_zero.
Qed.

(** The entries at the even indices are the velocities of the state,
    whatever the separation. *)
Lemma orbit_dy_dt_velocities (self : Orbit.Orbit)
      (t y0 y1 y2 y3 y4 y5 y6 y7 : R) :
  exists a1 a3 a5 a7,
    Orbit.dy_dt self t [y0; y1; y2; y3; y4; y5; y6; y7] =
    Ok [Num y1; a1; Num y3; a3; Num y5; a5; Num y7; a7].
Proof. unfold Orbit.dy_dt. cbn [getitem nth_error bind]. eauto. Qed.

Lemma notebook_orbit_apart :
  euclid (0.1, 0) (- (20 / 1) * 0.1, - (20 / 1) * 0) <> 0.
Proof.
  rewrite <- dom_euclid. intros H. apply dom_zero_iff in H. lra.
Qed.

(** C1.  On every state of eight components whose two positions are a
    nonzero distance [d] apart, [Orbit.dy_dt] returns Newton's accelerations:
    [G m2 (r2 - r1) / d^3] for the first body at the indices 1 and 3, and
    [G m1 (r1 - r2) / d^3] for the second body at the indices 5 and 7, [d]
    being the Euclidean distance of the positions. *)
Theorem orbit_dy_dt_newton (self : Orbit.Orbit)
        (t y0 y1 y2 y3 y4 y5 y6 y7 : R) :
  let r1 := (y0, y2) in
  let r2 := (y4, y6) in
  euclid r1 r2 <> 0 ->
  Orbit.dy_dt self t [y0; y1; y2; y3; y4; y5; y6; y7] =
  Ok [ Num y1; Num (fst (newton_acc (Orbit.G self) (Orbit.m2 self) r1 r2));
       Num y3; Num (snd (newton_acc (Orbit.G self) (Orbit.m2 self) r1 r2));
       Num y5; Num (fst (newton_acc (Orbit.G self) (Orbit.m1 self) r2 r1));
       Num y7; Num (snd (newton_acc (Orbit.G self) (Orbit.m1 self) r2 r1)) ].
Proof.
  intros r1 r2 Hd. subst r1 r2.
  rewrite orbit_dy_dt_apart by (rewrite dom_euclid; exact Hd).
  unfold newton_acc. cbn [fst snd].
  rewrite (euclid_sym (y4, y6) (y0, y2)), dom_euclid.
  set (d := euclid (y0, y2) (y4, y6)) in *.
  repeat (f_equal; try (field; exact Hd)).
Qed.

Lemma orbit_dy_dt_newton_witness :
  euclid (0.1, 0) (- (20 / 1) * 0.1, - (20 / 1) * 0) <> 0 /\
  Orbit.dy_dt notebook_orbit 0 notebook_orbit_state =
  Ok [ Num 0;
       Num (fst (newton_acc 20 1 (0.1, 0) (- (20 / 1) * 0.1, - (20 / 1) * 0)));
       Num 0.75;
       Num (snd (newton_acc 20 1 (0.1, 0) (- (20 / 1) * 0.1, - (20 / 1) * 0)));
       Num (- (20 / 1) * 0);
       Num (fst (newton_acc 20 20 (- (20 / 1) * 0.1, - (20 / 1) * 0) (0.1, 0)));
       Num (- (20 / 1) * 0.75);
       Num (snd (newton_acc 20 20 (- (20 / 1) * 0.1, - (20 / 1) * 0) (0.1, 0))) ].
Proof.
  split.
  - exact notebook_orbit_apart.
  - exact (orbit_dy_dt_newton notebook_orbit 0 _ _ _ _ _ _ _ _
             notebook_orbit_apart).
Defined.

(** C2.  On every state of eight components with a nonzero separation, and
    for all [m1], [m2] and [G], the two accelerations [Orbit.dy_dt] returns
    cancel when weighted by the masses: [m1 a1 + m2 a2] is the zero vector,
    [a1] at the indices 1 and 3 and [a2] at the indices 5 and 7. *)
Theorem orbit_momentum_change_cancels (self : Orbit.Orbit)
        (t y0 y1 y2 y3 y4 y5 y6 y7 : R) :
  Orbit.dom y0 y2 y4 y6 <> 0 ->
  exists a1x a1y a2x a2y,
    Orbit.dy_dt self t [y0; y1; y2; y3; y4; y5; y6; y7] =
    Ok [Num y1; Num a1x; Num y3; Num a1y; Num y5; Num a2x; Num y7; Num a2y] /\
    Orbit.m1 self * a1x + Orbit.m2 self * a2x = 0 /\
    Orbit.m1 self * a1y + Orbit.m2 self * a2y = 0.
Proof.
  intros Hd. rewrite orbit_dy_dt_apart by exact Hd.
  assert (H3 : Orbit.dom y0 y2 y4 y6 ^ 3 <> 0) by now apply pow_nonzero.
  do 4 eexists. split; [reflexivity |].
  split; field; exact Hd.
Qed.

Lemma orbit_momentum_change_cancels_witness :
  Orbit.dom 0.1 0 (- (20 / 1) * 0.1) (- (20 / 1) * 0) <> 0 /\
  exists a1x a1y a2x a2y,
    Orbit.dy_dt notebook_orbit 0 notebook_orbit_state =
    Ok [Num 0; Num a1x; Num 0.75; Num a1y;
        Num (- (20 / 1) * 0); Num a2x; Num (- (20 / 1) * 0.75); Num a2y] /\
    20 * a1x + 1 * a2x = 0 /\
    20 * a1y + 1 * a2y = 0.
Proof.
  split.
  - exact notebook_orbit_apart.
  - exact (orbit_momentum_change_cancels notebook_orbit 0 _ _ _ _ _ _ _ _
             notebook_orbit_apart).
Defined.

(** C3.  On every state of eight components with a nonzero separation, the
    entries of the derivative at the indices 0, 2, 4 and 6 are the
    velocities [y[1]], [y[3]], [y[5]] and [y[7]] of the state. *)
Theorem orbit_velocities_pass_through (self : Orbit.Orbit)
        (t y0 y1 y2 y3 y4 y5 y6 y7 : R) :
  Orbit.dom y0 y2 y4 y6 <> 0 ->
  exists dy,
    Orbit.dy_dt self t [y0; y1; y2; y3; y4; y5; y6; y7] = Ok dy /\
    length dy = 8%nat /\
    nth_error dy 0 = Some (Num y1) /\
    nth_error dy 2 = Some (Num y3) /\
    nth_error dy 4 = Some (Num y5) /\
    nth_error dy 6 = Some (Num y7).
Proof.
  intros _.
  destruct (orbit_dy_dt_velocities self t y0 y1 y2 y3 y4 y5 y6 y7)
    as (a1 & a3 & a5 & a7 & E).
  rewrite E. eexists. split; [reflexivity |]. cbn. auto 6.
Qed.

Lemma orbit_velocities_pass_through_witness :
  Orbit.dom 0.1 0 (- (20 / 1) * 0.1) (- (20 / 1) * 0) <> 0 /\
  exists dy,
    Orbit.dy_dt notebook_orbit 0 notebook_orbit_state = Ok dy /\
    length dy = 8%nat /\
    nth_error dy 0 = Some (Num 0) /\
    nth_error dy 2 = Some (Num 0.75) /\
    nth_error dy 4 = Some (Num (- (20 / 1) * 0)) /\
    nth_error dy 6 = Some (Num (- (20 / 1) * 0.75)).
Proof.
  split.
  - exact notebook_orbit_apart.
  - exact (orbit_velocities_pass_through notebook_orbit 0 _ _ _ _ _ _ _ _
             notebook_orbit_apart).
Defined.

(** ** The pendulum field *)

Lemma denom_factor_lower_bound (self : DoublePendulum.DoublePendulum)
      (y0 y2 : R) :
  0 <= DoublePendulum.m2 self ->
  2 * DoublePendulum.m1 self <= DoublePendulum.denom_factor self y0 y2.
Proof.
  intros Hm2. unfold DoublePendulum.denom_factor.
  pose proof (COS_bound (2 * y0 - 2 * y2)) as [_ Hc]. nra.
Qed.

Lemma denom_factor_pos (self : DoublePendulum.DoublePendulum) (y0 y2 : R) :
  0 < DoublePendulum.m1 self -> 0 <= DoublePendulum.m2 self ->
  0 < DoublePendulum.denom_factor self y0 y2.
Proof.
  intros Hm1 Hm2. pose proof (denom_factor_lower_bound self y0 y2 Hm2). lra.
Qed.

Lemma pendulum_dy_dt_eq (self : DoublePendulum.DoublePendulum)
      (t y0 y1 y2 y3 : R) :
  DoublePendulum.dy_dt self t [y0; y1; y2; y3] =
  Ok [ Num y1;
       fdiv (DoublePendulum.numer_1 self y0 y1 y2 y3)
            (DoublePendulum.denom_1 self y0 y2);
       Num y3;
       fdiv (DoublePendulum.numer_2 self y0 y1 y2 y3)
            (DoublePendulum.denom_2 self y0 y2) ].
Proof. reflexivity. Qed.

Lemma numer_1_at_rest (self : DoublePendulum.DoublePendulum) :
  DoublePendulum.numer_1 self 0 0 0 0 = 0.
Proof.
  unfold DoublePendulum.numer_1.
  replace (0 - 2 * 0) with 0 by ring. replace (0 - 0) with 0 by ring.
  rewrite sin_0. ring.
Qed.

Lemma numer_2_at_rest (self : DoublePendulum.DoublePendulum) :
  DoublePendulum.numer_2 self 0 0 0 0 = 0.
Proof.
  unfold DoublePendulum.numer_2.
  replace (0 - 0) with 0 by ring. rewrite sin_0. ring.
Qed.

(** C10.  Both fields are autonomous: for every state [y] and all times
    [t], [t'], [Orbit.dy_dt(t, y) = Orbit.dy_dt(t', y)] and
    [DoublePendulum.dy_dt(t, y) = DoublePendulum.dy_dt(t', y)]. *)
Theorem dy_dt_autonomous (orbit : Orbit.Orbit)
        (pendulum : DoublePendulum.DoublePendulum) (t t' : R) (y : list R) :
  Orbit.dy_dt orbit t y = Orbit.dy_dt orbit t' y /\
  DoublePendulum.dy_dt pendulum t y = DoublePendulum.dy_dt pendulum t' y.
Proof. split; reflexivity. Qed.

(** ** The nearest sample *)

(** The scan either keeps the index it was given, and then nothing in the
    list is below the value it was given, or it moves to the first entry
    that is least in the list and strictly below that value. *)
Lemma argmin_scan_spec (a : list R) :
  forall (i : nat) (mp : R) (min_ind : nat),
    (argmin_scan a i mp min_ind = min_ind /\ Forall (fun x => mp <= x) a) \/
    (exists k,
        argmin_scan a i mp min_ind = (i + k)%nat /\
        (k < length a)%nat /\
        nth k a 0 < mp /\
        Forall (fun x => nth k a 0 <= x) a /\
        (forall k', (k' < k)%nat -> nth k a 0 < nth k' a 0)).
Proof.
  induction a as [| x a IH]; intros i mp min_ind; cbn [argmin_scan].
  - left. split; [reflexivity | constructor].
  - destruct (Rlt_dec x mp) as [Hlt | Hge].
    + destruct (IH (S i) x i) as [[E F] | (k & E & Hk & Hv & F & Hfirst)].
      * right. exists 0%nat. cbn [nth length]. repeat split.
        -- rewrite E. lia.
        -- lia.
        -- exact Hlt.
        -- constructor; [lra | exact F].
        -- intros k' Hk'. lia.
      * right. exists (S k). cbn [nth length]. repeat split.
        -- rewrite E. lia.
        -- lia.
        -- lra.
        -- constructor; [lra | exact F].
        -- intros [| k'] Hk'; cbn [nth]; [exact Hv | apply Hfirst; lia].
    + apply Rnot_lt_le in Hge.
      destruct (IH (S i) mp min_ind) as [[E F] | (k & E & Hk & Hv & F & Hfirst)].
      * left. split; [exact E | constructor; assumption].
      * right. exists (S k). cbn [nth length]. repeat split.
        -- rewrite E. lia.
        -- lia.
        -- exact Hv.
        -- constructor; [lra | exact F].
        -- intros [| k'] Hk'; cbn [nth]; [lra | apply Hfirst; lia].
Qed.

Lemma Forall_nth_le (a : list R) (v : R) :
  Forall (fun x => v <= x) a ->
  forall k, (k < length a)%nat -> v <= nth k a 0.
Proof.
  intros F k Hk. rewrite Forall_forall in F. apply F, nth_In, Hk.
Qed.

(** [argmin] of a nonempty list is the first index of a least entry. *)
Lemma argmin_spec (a : list R) :
  a <> [] ->
  exists i,
    argmin a = Ok i /\
    (i < length a)%nat /\
    (forall k, (k < length a)%nat -> nth i a 0 <= nth k a 0) /\
    (forall k, (k < i)%nat -> nth i a 0 < nth k a 0).
Proof.
  destruct a as [| x a]; [congruence | intros _].
  cbn [argmin].
  destruct (argmin_scan_spec a 1 x 0)
    as [[E F] | (k & E & Hk & Hv & F & Hfirst)].
  - exists 0%nat. rewrite E. cbn [length nth]. repeat split.
    + lia.
    + intros [| k] Hk; cbn [nth]; [lra |].
      apply Forall_nth_le; [exact F | lia].
    + intros k Hk. lia.
  - exists (S k). rewrite E. cbn [length nth]. repeat split.
    + lia.
    + intros [| k'] Hk'; cbn [nth]; [lra |].
      apply Forall_nth_le; [exact F | lia].
    + intros [| k'] Hk'; cbn [nth]; [exact Hv | apply Hfirst; lia].
Qed.

Lemma fabs_diff_length (t_pts : list R) (c : R) :
  length (fabs_diff t_pts c) = length t_pts.
Proof. apply length_map. Qed.

Lemma fabs_diff_nth (t_pts : list R) (c : R) (k : nat) :
  (k < length t_pts)%nat ->
  nth k (fabs_diff t_pts c) 0 = Rabs (nth k t_pts 0 - c).
Proof.
  intros Hk. unfold fabs_diff.
  rewrite (nth_indep _ 0 (Rabs (0 - c))) by now rewrite length_map.
  apply (map_nth (fun t => Rabs (t - c))).
Qed.

(** The index [argmin] picks in [np.fabs(t_pts - c)] is that of the first
    sample nearest to [c]. *)
Lemma nearest_index (t_pts : list R) (c : R) :
  t_pts <> [] ->
  exists i,
    argmin (fabs_diff t_pts c) = Ok i /\
    (i < length t_pts)%nat /\
    (forall k, (k < length t_pts)%nat ->
               Rabs (nth i t_pts 0 - c) <= Rabs (nth k t_pts 0 - c)) /\
    (forall k, (k < i)%nat ->
               Rabs (nth i t_pts 0 - c) < Rabs (nth k t_pts 0 - c)).
Proof.
  intros Hne.
  destruct (argmin_spec (fabs_diff t_pts c)) as (i & E & Hi & Hmin & Hfirst).
  { destruct t_pts; [congruence | discriminate]. }
  rewrite fabs_diff_length in Hi, Hmin.
  exists i. repeat split; try assumption.
  - intros k Hk. rewrite <- !fabs_diff_nth by assumption. now apply Hmin.
  - intros k Hk. rewrite <- !fabs_diff_nth by lia. now apply Hfirst.
Qed.

Lemma start_stop_indices_again_eq (t_pts : list R) (plot_start plot_stop : R) :
  start_stop_indices_again t_pts plot_start plot_stop =
  start_stop_indices t_pts plot_start plot_stop.
Proof. reflexivity. Qed.

(** On an empty array the helper raises. *)
Lemma start_stop_indices_empty (plot_start plot_stop : R) :
  start_stop_indices [] plot_start plot_stop = Raise ValueError.
Proof. reflexivity. Qed.

(** C9.  For every nonempty [t_pts] and all [plot_start], [plot_stop],
    [start_stop_indices] returns a pair of indices [(i, j)] of [t_pts] such
    that [|t_pts[i] - plot_start|] and [|t_pts[j] - plot_stop|] are least
    over all indices; and the second definition of the helper computes the
    same as the first. *)
Theorem start_stop_indices_nearest (t_pts : list R)
        (plot_start plot_stop : R) :
  t_pts <> [] ->
  exists i j,
    start_stop_indices t_pts plot_start plot_stop = Ok (i, j) /\
    start_stop_indices_again t_pts plot_start plot_stop = Ok (i, j) /\
    (i < length t_pts)%nat /\ (j < length t_pts)%nat /\
    (forall k, (k < length t_pts)%nat ->
       Rabs (nth i t_pts 0 - plot_start) <= Rabs (nth k t_pts 0 - plot_start)) /\
    (forall k, (k < length t_pts)%nat ->
       Rabs (nth j t_pts 0 - plot_stop) <= Rabs (nth k t_pts 0 - plot_stop)) /\
    (forall ts a b,
       start_stop_indices_again ts a b = start_stop_indices ts a b).
Proof.
  intros Hne.
  destruct (nearest_index t_pts plot_start Hne) as (i & Ei & Hi & Hmin_i & _).
  destruct (nearest_index t_pts plot_stop Hne) as (j & Ej & Hj & Hmin_j & _).
  exists i, j.
  unfold start_stop_indices_again, start_stop_indices.
  rewrite Ei, Ej. cbn [bind]. repeat split; auto.
Qed.

Example start_stop_indices_three_samples :
  start_stop_indices three_samples 0.4 1.6 = Ok (0%nat, 2%nat).
Proof.
  unfold start_stop_indices, fabs_diff, three_samples, argmin.
  cbn [map argmin_scan bind].
  unfold Rabs.
  repeat match goal with
         | |- context [Rcase_abs ?x] => destruct (Rcase_abs x); try lra
         end.
  repeat match goal with
         | |- context [Rlt_dec ?x ?y] => destruct (Rlt_dec x y); try lra
         end.
  reflexivity.
Qed.

Lemma start_stop_indices_nearest_witness :
  three_samples <> [] /\
  exists i j,
    start_stop_indices three_samples 0.4 1.6 = Ok (i, j) /\
    start_stop_indices_again three_samples 0.4 1.6 = Ok (i, j) /\
    (i < length three_samples)%nat /\ (j < length three_samples)%nat /\
    (forall k, (k < length three_samples)%nat ->
       Rabs (nth i three_samples 0 - 0.4) <= Rabs (nth k three_samples 0 - 0.4)) /\
    (forall k, (k < length three_samples)%nat ->
       Rabs (nth j three_samples 0 - 1.6) <= Rabs (nth k three_samples 0 - 1.6)) /\
    (forall ts a b,
       start_stop_indices_again ts a b = start_stop_indices ts a b).
Proof.
  split.
  - discriminate.
  - apply (start_stop_indices_nearest three_samples 0.4 1.6). discriminate.
Defined.

(** ** The drivers *)

Lemma default_tol_value : default_tol = 1 / 10 ^ 9.
Proof. unfold default_tol. lra. Qed.

Lemma getitem_first_last (t_pts : list R) :
  t_pts <> [] ->
  getitem t_pts 0 = Ok (hd 0 t_pts) /\ getitem_last t_pts = Ok (last t_pts 0).
Proof.
  destruct t_pts as [| t0 ts]; [congruence | intros _]. split; [reflexivity |].
  cbn [getitem_last]. f_equal.
  revert t0. induction ts as [| t1 ts IH]; intros t0; [reflexivity |].
  cbn [last] in *. destruct ts as [| t2 ts]; [reflexivity |]. apply IH.
Qed.

(** The rows a solver within its contract answers with, for an initial
    state of [n] components. *)
Lemma contract_rows (solver : ivp_request -> result OdeResult)
      (req : ivp_request) :
  solver_contract solver -> Sorted Rle (req_t_eval req) ->
  exists rows,
    solver req = Ok {| sol_y := rows |} /\
    length rows = length (req_y0 req) /\
    Forall (fun row => length row = length (req_t_eval req)) rows.
Proof.
  intros Hc Hs. destruct (Hc req Hs) as ([rows] & E & Hn & Hrows).
  exists rows. auto.
Qed.

Lemma constant_solver_contract : solver_contract constant_solver.
Proof.
  intros req _. eexists. split; [reflexivity |]. cbn [sol_y]. split.
  - apply length_map.
  - apply Forall_forall. intros row Hin.
    apply in_map_iff in Hin. destruct Hin as (c & <- & _). apply length_map.
Qed.

Lemma three_samples_sorted : Sorted Rle three_samples.
Proof. unfold three_samples. repeat constructor; lra. Qed.

Lemma rows_of_length_8 {A : Type} (rows : list A) :
  length rows = 8%nat ->
  exists a b c d e f g h, rows = [a; b; c; d; e; f; g; h].
Proof.
  intros H.
  do 8 (destruct rows as [| ? rows]; [discriminate |]).
  destruct rows; [| discriminate]. eauto 10.
Qed.

Lemma rows_of_length_4 {A : Type} (rows : list A) :
  length rows = 4%nat -> exists a b c d, rows = [a; b; c; d].
Proof.
  intros H.
  do 4 (destruct rows as [| ? rows]; [discriminate |]).
  destruct rows; [| discriminate]. eauto 10.
Qed.

(** C8.  For every nonempty [t_pts] in increasing order and every full set
    of initial conditions, [solve_ode] of either class calls the solver
    with the field [dy_dt] of the instance, the span
    [(t_pts[0], t_pts[-1])], the initial state built from the initial
    conditions, [t_eval = t_pts], and the tolerances [abserr] and [relerr],
    which default to [1e-9]; against a solver that keeps its contract it
    returns the rows of the answer, eight for the two-body system and four
    for the pendulum, each as long as [t_pts]. *)
Theorem solve_ode_calls_solver
        (solver : ivp_request -> result OdeResult)
        (orbit : Orbit.Orbit) (pendulum : DoublePendulum.DoublePendulum)
        (t_pts : list R)
        (x_1_0 x_1_dot_0 y_1_0 y_1_dot_0 x_2_0 x_2_dot_0 y_2_0 y_2_dot_0 : R)
        (phi_1_0 phi_1_dot_0 phi_2_0 phi_2_dot_0 : R)
        (abserr relerr : option R) :
  solver_contract solver ->
  t_pts <> [] ->
  Sorted Rle t_pts ->
  let orbit_request :=
    {| req_fun := Orbit.dy_dt orbit;
       req_t_span := (hd 0 t_pts, last t_pts 0);
       req_y0 := [x_1_0; x_1_dot_0; y_1_0; y_1_dot_0;
                  x_2_0; x_2_dot_0; y_2_0; y_2_dot_0];
       req_t_eval := t_pts;
       req_atol := with_default abserr (1 / 10 ^ 9);
       req_rtol := with_default relerr (1 / 10 ^ 9) |} in
  let pendulum_request :=
    {| req_fun := DoublePendulum.dy_dt pendulum;
       req_t_span := (hd 0 t_pts, last t_pts 0);
       req_y0 := [phi_1_0; phi_1_dot_0; phi_2_0; phi_2_dot_0];
       req_t_eval := t_pts;
       req_atol := with_default abserr (1 / 10 ^ 9);
       req_rtol := with_default relerr (1 / 10 ^ 9) |} in
  (exists k,
      Orbit.solve_ode orbit t_pts x_1_0 x_1_dot_0 y_1_0 y_1_dot_0
                      x_2_0 x_2_dot_0 y_2_0 y_2_dot_0 abserr relerr
      = SolveIvp orbit_request k) /\
  (exists x_1 x_dot_1 y_1 y_dot_1 x_2 x_dot_2 y_2 y_dot_2,
      solver orbit_request =
      Ok {| sol_y := [x_1; x_dot_1; y_1; y_dot_1;
                      x_2; x_dot_2; y_2; y_dot_2] |} /\
      run solver
          (Orbit.solve_ode orbit t_pts x_1_0 x_1_dot_0 y_1_0 y_1_dot_0
                           x_2_0 x_2_dot_0 y_2_0 y_2_dot_0 abserr relerr)
      = Ok (x_1, x_dot_1, y_1, y_dot_1, x_2, x_dot_2, y_2, y_dot_2) /\
      Forall (fun row => length row = length t_pts)
             [x_1; x_dot_1; y_1; y_dot_1; x_2; x_dot_2; y_2; y_dot_2]) /\
  (exists k,
      DoublePendulum.solve_ode pendulum t_pts phi_1_0 phi_1_dot_0
                               phi_2_0 phi_2_dot_0 abserr relerr
      = SolveIvp pendulum_request k) /\
  (exists phi_1 phi_1_dot phi_2 phi_2_dot,
      solver pendulum_request =
      Ok {| sol_y := [phi_1; phi_1_dot; phi_2; phi_2_dot] |} /\
      run solver
          (DoublePendulum.solve_ode pendulum t_pts phi_1_0 phi_1_dot_0
                                    phi_2_0 phi_2_dot_0 abserr relerr)
      = Ok (phi_1, phi_1_dot, phi_2, phi_2_dot) /\
      Forall (fun row => length row = length t_pts)
             [phi_1; phi_1_dot; phi_2; phi_2_dot]).
Proof.
  intros Hc Hne Hs orbit_request pendulum_request.
  destruct (getitem_first_last t_pts Hne) as [Efirst Elast].
  assert (Eo : Orbit.solve_ode orbit t_pts x_1_0 x_1_dot_0 y_1_0 y_1_dot_0
                               x_2_0 x_2_dot_0 y_2_0 y_2_dot_0 abserr relerr
               = SolveIvp orbit_request
                   (fun solution =>
                      match sol_y solution with
                      | [a; b; c; d; e; f; g; h] => Ret (a, b, c, d, e, f, g, h)
                      | _ => Throw ValueError
                      end)).
  { unfold Orbit.solve_ode. rewrite Efirst, Elast. cbn [lift].
    unfold orbit_request. now rewrite default_tol_value. }
  assert (Ep : DoublePendulum.solve_ode pendulum t_pts phi_1_0 phi_1_dot_0
                                        phi_2_0 phi_2_dot_0 abserr relerr
               = SolveIvp pendulum_request
                   (fun solution =>
                      match sol_y solution with
                      | [a; b; c; d] => Ret (a, b, c, d)
                      | _ => Throw ValueError
                      end)).
  { unfold DoublePendulum.solve_ode. rewrite Efirst, Elast. cbn [lift].
    unfold pendulum_request. now rewrite default_tol_value. }
  split; [eexists; exact Eo |].
  split.
  - destruct (contract_rows solver orbit_request Hc Hs)
      as (rows & E & Hn & Hrows).
    apply rows_of_length_8 in Hn.
    destruct Hn as (a & b & c & d & e & f & g & h & ->).
    exists a, b, c, d, e, f, g, h. split; [exact E |].
    split; [| exact Hrows].
    rewrite Eo. cbn [run]. now rewrite E.
  - split; [eexists; exact Ep |].
    destruct (contract_rows solver pendulum_request Hc Hs)
      as (rows & E & Hn & Hrows).
    apply rows_of_length_4 in Hn.
    destruct Hn as (a & b & c & d & ->).
    exists a, b, c, d. split; [exact E |].
    split; [| exact Hrows].
    rewrite Ep. cbn [run]. now rewrite E.
Qed.

Lemma solve_ode_calls_solver_witness :
  (solver_contract constant_solver /\
   three_samples <> [] /\
   Sorted Rle three_samples) /\
  let orbit_request :=
    {| req_fun := Orbit.dy_dt notebook_orbit;
       req_t_span := (hd 0 three_samples, last three_samples 0);
       req_y0 := [0.1; 0; 0; 0.75; -2; 0; 0; -15];
       req_t_eval := three_samples;
       req_atol := with_default None (1 / 10 ^ 9);
       req_rtol := with_default None (1 / 10 ^ 9) |} in
  let pendulum_request :=
    {| req_fun := DoublePendulum.dy_dt notebook_pendulum;
       req_t_span := (hd 0 three_samples, last three_samples 0);
       req_y0 := [PI / 2; 0; PI; 0];
       req_t_eval := three_samples;
       req_atol := with_default None (1 / 10 ^ 9);
       req_rtol := with_default None (1 / 10 ^ 9) |} in
  (exists k,
      Orbit.solve_ode notebook_orbit three_samples
                      0.1 0 0 0.75 (-2) 0 0 (-15) None None
      = SolveIvp orbit_request k) /\
  (exists x_1 x_dot_1 y_1 y_dot_1 x_2 x_dot_2 y_2 y_dot_2,
      constant_solver orbit_request =
      Ok {| sol_y := [x_1; x_dot_1; y_1; y_dot_1;
                      x_2; x_dot_2; y_2; y_dot_2] |} /\
      run constant_solver
          (Orbit.solve_ode notebook_orbit three_samples
                           0.1 0 0 0.75 (-2) 0 0 (-15) None None)
      = Ok (x_1, x_dot_1, y_1, y_dot_1, x_2, x_dot_2, y_2, y_dot_2) /\
      Forall (fun row => length row = length three_samples)
             [x_1; x_dot_1; y_1; y_dot_1; x_2; x_dot_2; y_2; y_dot_2]) /\
  (exists k,
      DoublePendulum.solve_ode notebook_pendulum three_samples
                               (PI / 2) 0 PI 0 None None
      = SolveIvp pendulum_request k) /\
  (exists phi_1 phi_1_dot phi_2 phi_2_dot,
      constant_solver pendulum_request =
      Ok {| sol_y := [phi_1; phi_1_dot; phi_2; phi_2_dot] |} /\
      run constant_solver
          (DoublePendulum.solve_ode notebook_pendulum three_samples
                                    (PI / 2) 0 PI 0 None None)
      = Ok (phi_1, phi_1_dot, phi_2, phi_2_dot) /\
      Forall (fun row => length row = length three_samples)
             [phi_1; phi_1_dot; phi_2; phi_2_dot]).
Proof.
  split.
  - split; [exact constant_solver_contract |].
    split; [discriminate | exact three_samples_sorted].
  - apply (solve_ode_calls_solver
             constant_solver notebook_orbit notebook_pendulum three_samples
             0.1 0 0 0.75 (-2) 0 0 (-15) (PI / 2) 0 PI 0 None None).
    + exact constant_solver_contract.
    + discriminate.
    + exact three_samples_sorted.
Defined.

(** * Further properties of the two-body field *)

Lemma orbit_dy_dt_ignores_tail (self : Orbit.Orbit)
      (t y0 y1 y2 y3 y4 y5 y6 y7 : R) (rest : list R) :
  Orbit.dy_dt self t (y0 :: y1 :: y2 :: y3 :: y4 :: y5 :: y6 :: y7 :: rest) =
  Orbit.dy_dt self t [y0; y1; y2; y3; y4; y5; y6; y7].
Proof. reflexivity. Qed.

Lemma dom_shift (y0 y2 y4 y6 cx cy : R) :
  Orbit.dom (y0 + cx) (y2 + cy) (y4 + cx) (y6 + cy) = Orbit.dom y0 y2 y4 y6.
Proof. unfold Orbit.dom. f_equal. ring. Qed.

Lemma dom_sym (y0 y2 y4 y6 : R) :
  Orbit.dom y4 y6 y0 y2 = Orbit.dom y0 y2 y4 y6.
Proof. unfold Orbit.dom. f_equal. ring. Qed.

Lemma dom_nonneg (y0 y2 y4 y6 : R) : 0 <= Orbit.dom y0 y2 y4 y6.
Proof. apply sqrt_pos. Qed.

Lemma dom_scale (k y0 y2 y4 y6 : R) :
  0 <= k ->
  Orbit.dom (k * y0) (k * y2) (k * y4) (k * y6) = k * Orbit.dom y0 y2 y4 y6.
Proof.
  intros Hk. unfold Orbit.dom.
  replace ((k * y0 - k * y4) ^ 2 + (k * y2 - k * y6) ^ 2)
    with (k ^ 2 * ((y0 - y4) ^ 2 + (y2 - y6) ^ 2)) by ring.
  rewrite sqrt_mult; [| nra | apply sum_sq_nonneg].
  now rewrite sqrt_pow2.
Qed.

(** X2.  Galilean invariance: moving both bodies by the same displacement
    [(cx, cy)] and adding the same velocity [(ux, uy)] to both leaves the
    four accelerations [Orbit.dy_dt] returns as they are, the non-finite
    ones included, and the velocity entries follow the state. *)
Theorem orbit_dy_dt_galilean (self : Orbit.Orbit)
        (t t' y0 y1 y2 y3 y4 y5 y6 y7 cx cy ux uy : R) :
  exists a1x a1y a2x a2y,
    Orbit.dy_dt self t [y0; y1; y2; y3; y4; y5; y6; y7] =
    Ok [Num y1; a1x; Num y3; a1y; Num y5; a2x; Num y7; a2y] /\
    Orbit.dy_dt self t' [y0 + cx; y1 + ux; y2 + cy; y3 + uy;
                         y4 + cx; y5 + ux; y6 + cy; y7 + uy] =
    Ok [Num (y1 + ux); a1x; Num (y3 + uy); a1y;
        Num (y5 + ux); a2x; Num (y7 + uy); a2y].
Proof.
  do 4 eexists. split; [reflexivity |].
  unfold Orbit.dy_dt. cbn [getitem nth_error bind].
  rewrite dom_shift.
  replace (y4 + cx - (y0 + cx)) with (y4 - y0) by ring.
  replace (y6 + cy - (y2 + cy)) with (y6 - y2) by ring.
  reflexivity.
Qed.

(** X3.  No net torque: on every state with a nonzero separation the
    accelerations satisfy
    [m1 (x1 a1y - y1 a1x) + m2 (x2 a2y - y2 a2x) = 0], so the rate of change
    of the angular momentum about the origin is zero. *)
Theorem orbit_net_torque_zero (self : Orbit.Orbit)
        (t y0 y1 y2 y3 y4 y5 y6 y7 : R) :
  Orbit.dom y0 y2 y4 y6 <> 0 ->
  exists a1x a1y a2x a2y,
    Orbit.dy_dt self t [y0; y1; y2; y3; y4; y5; y6; y7] =
    Ok [Num y1; Num a1x; Num y3; Num a1y; Num y5; Num a2x; Num y7; Num a2y] /\
    Orbit.m1 self * (y0 * a1y - y2 * a1x)
    + Orbit.m2 self * (y4 * a2y - y6 * a2x) = 0.
Proof.
  intros Hd. rewrite orbit_dy_dt_apart by exact Hd.
  do 4 eexists. split; [reflexivity |]. field. exact Hd.
Qed.

Lemma orbit_net_torque_zero_witness :
  Orbit.dom 0.1 0 (- (20 / 1) * 0.1) (- (20 / 1) * 0) <> 0 /\
  exists a1x a1y a2x a2y,
    Orbit.dy_dt notebook_orbit 0 notebook_orbit_state =
    Ok [Num 0; Num a1x; Num 0.75; Num a1y;
        Num (- (20 / 1) * 0); Num a2x; Num (- (20 / 1) * 0.75); Num a2y] /\
    20 * (0.1 * a1y - 0 * a1x)
    + 1 * (- (20 / 1) * 0.1 * a2y - - (20 / 1) * 0 * a2x) = 0.
Proof.
  split.
  - exact notebook_orbit_apart.
  - exact (orbit_net_torque_zero notebook_orbit 0 _ _ _ _ _ _ _ _
             notebook_orbit_apart).
Defined.

(** X4.  Exchange symmetry: renaming the bodies, that is swapping the two
    masses and the two halves of the state, swaps the two halves of the
    derivative, the non-finite entries included. *)
Theorem orbit_dy_dt_exchange (self : Orbit.Orbit)
        (t y0 y1 y2 y3 y4 y5 y6 y7 : R) :
  let swapped := {| Orbit.m1 := Orbit.m2 self;
                    Orbit.m2 := Orbit.m1 self;
                    Orbit.G := Orbit.G self |} in
  exists d0 d1 d2 d3 d4 d5 d6 d7,
    Orbit.dy_dt self t [y0; y1; y2; y3; y4; y5; y6; y7] =
    Ok [d0; d1; d2; d3; d4; d5; d6; d7] /\
    Orbit.dy_dt swapped t [y4; y5; y6; y7; y0; y1; y2; y3] =
    Ok [d4; d5; d6; d7; d0; d1; d2; d3].
Proof.
  intros swapped.
  destruct (Req_dec_T (Orbit.dom y0 y2 y4 y6) 0) as [Z | N].
  - apply dom_zero_iff in Z. destruct Z as [-> ->].
    rewrite !orbit_dy_dt_coincident. do 8 eexists. split; reflexivity.
  - assert (N' : Orbit.dom y4 y6 y0 y2 <> 0)
      by (rewrite (dom_sym y0 y2 y4 y6); exact N).
    rewrite !orbit_dy_dt_apart by assumption.
    do 8 eexists. split; [reflexivity |].
    rewrite (dom_sym y0 y2 y4 y6). cbn [Orbit.m1 Orbit.m2 Orbit.G swapped].
    repeat (f_equal; try (field; exact N)).
Qed.

(** X5.  Inverse-square scaling: stretching all four position components
    by a factor [k > 0] divides every acceleration by [k^2]. *)
Theorem orbit_dy_dt_inverse_square (self : Orbit.Orbit)
        (t k y0 y1 y2 y3 y4 y5 y6 y7 : R) :
  0 < k ->
  Orbit.dom y0 y2 y4 y6 <> 0 ->
  exists a1x a1y a2x a2y,
    Orbit.dy_dt self t [y0; y1; y2; y3; y4; y5; y6; y7] =
    Ok [Num y1; Num a1x; Num y3; Num a1y; Num y5; Num a2x; Num y7; Num a2y] /\
    Orbit.dy_dt self t [k * y0; y1; k * y2; y3; k * y4; y5; k * y6; y7] =
    Ok [Num y1; Num (a1x / k ^ 2); Num y3; Num (a1y / k ^ 2);
        Num y5; Num (a2x / k ^ 2); Num y7; Num (a2y / k ^ 2)].
Proof.
  intros Hk Hd.
  assert (Hkd : Orbit.dom (k * y0) (k * y2) (k * y4) (k * y6) <> 0).
  { rewrite dom_scale by lra. apply Rmult_integral_contrapositive. lra. }
  rewrite !orbit_dy_dt_apart by assumption.
  do 4 eexists. split; [reflexivity |].
  rewrite dom_scale by lra.
  repeat (f_equal; try (field; split; lra)).
Qed.

Lemma orbit_dy_dt_inverse_square_witness :
  (0 < 2 /\ Orbit.dom 0.1 0 (- (20 / 1) * 0.1) (- (20 / 1) * 0) <> 0) /\
  exists a1x a1y a2x a2y,
    Orbit.dy_dt notebook_orbit 0 notebook_orbit_state =
    Ok [Num 0; Num a1x; Num 0.75; Num a1y;
        Num (- (20 / 1) * 0); Num a2x; Num (- (20 / 1) * 0.75); Num a2y] /\
    Orbit.dy_dt notebook_orbit 0
      [2 * 0.1; 0; 2 * 0; 0.75;
       2 * (- (20 / 1) * 0.1); - (20 / 1) * 0;
       2 * (- (20 / 1) * 0); - (20 / 1) * 0.75] =
    Ok [Num 0; Num (a1x / 2 ^ 2); Num 0.75; Num (a1y / 2 ^ 2);
        Num (- (20 / 1) * 0); Num (a2x / 2 ^ 2);
        Num (- (20 / 1) * 0.75); Num (a2y / 2 ^ 2)].
Proof.
  split.
  - split; [lra | exact notebook_orbit_apart].
  - apply (orbit_dy_dt_inverse_square notebook_orbit 0 2);
      [lra | exact notebook_orbit_apart].
Defined.

(** ** Energy along the two-body field *)

Lemma quadratic_derivative_at_0 (c0 c1 c2 : R) :
  derivable_pt_lim (fun s => c0 + c1 * s + c2 * s ^ 2) 0 c1.
Proof.
  assert (H : derivable_pt_lim
                (fct_cte c0 + mult_real_fct c1 id
                 + mult_real_fct c2 (fun y => y ^ 2))%F 0
                (0 + c1 * 1 + c2 * (INR 2 * 0 ^ pred 2))).
  { apply derivable_pt_lim_plus; [apply derivable_pt_lim_plus |].
    - apply derivable_pt_lim_const.
    - apply derivable_pt_lim_scal, derivable_pt_lim_id.
    - apply derivable_pt_lim_scal, derivable_pt_lim_pow. }
  assert (E : 0 + c1 * 1 + c2 * (INR 2 * 0 ^ pred 2) = c1) by (simpl; ring).
  rewrite E in H. exact H.
Qed.

(** Derivative at 0 of [s |-> k0 + k1 s + k2 s^2 - c / sqrt (q0 + q1 s + q2 s^2)]. *)
Lemma energy_along_line (k0 k1 k2 c q0 q1 q2 : R) :
  0 < q0 ->
  derivable_pt_lim
    (fun s => k0 + k1 * s + k2 * s ^ 2
              - c / sqrt (q0 + q1 * s + q2 * s ^ 2)) 0
    (k1 + c * q1 / (2 * sqrt q0 ^ 3)).
Proof.
  intros Hq0.
  pose (K := fun s => k0 + k1 * s + k2 * s ^ 2).
  pose (Q := fun s => q0 + q1 * s + q2 * s ^ 2).
  assert (HQ0 : Q 0 = q0) by (unfold Q; ring).
  assert (Hs : 0 < sqrt q0) by now apply sqrt_lt_R0.
  assert (HD : derivable_pt_lim (comp sqrt Q) 0 (/ (2 * sqrt q0) * q1)).
  { apply derivable_pt_lim_comp.
    - apply quadratic_derivative_at_0.
    - rewrite HQ0. now apply derivable_pt_lim_sqrt. }
  assert (H : derivable_pt_lim (K - fct_cte c / comp sqrt Q)%F 0
                (k1 - (0 * comp sqrt Q 0 - / (2 * sqrt q0) * q1 * fct_cte c 0)
                      / (comp sqrt Q 0)²)).
  { apply derivable_pt_lim_minus.
    - apply quadratic_derivative_at_0.
    - apply derivable_pt_lim_div.
      + apply derivable_pt_lim_const.
      + exact HD.
      + unfold comp. rewrite HQ0. lra. }
  unfold comp, fct_cte in H. rewrite HQ0 in H.
  assert (E : k1 - (0 * sqrt q0 - / (2 * sqrt q0) * q1 * c) / (sqrt q0)²
              = k1 + c * q1 / (2 * sqrt q0 ^ 3))
    by (unfold Rsqr; field; lra).
  rewrite E in H. exact H.
Qed.

(** X6.  The two-body field conserves energy: on every state [y] with a
    nonzero separation, the derivative at [s = 0] of the energy
    [m1 |v1|^2 / 2 + m2 |v2|^2 / 2 - G m1 m2 / d] along the line
    [s |-> y + s * dy_dt(t, y)] is zero. *)
Theorem orbit_energy_conserved (self : Orbit.Orbit)
        (t y0 y1 y2 y3 y4 y5 y6 y7 : R) :
  Orbit.dom y0 y2 y4 y6 <> 0 ->
  exists d0 d1 d2 d3 d4 d5 d6 d7,
    Orbit.dy_dt self t [y0; y1; y2; y3; y4; y5; y6; y7] =
    Ok [Num d0; Num d1; Num d2; Num d3; Num d4; Num d5; Num d6; Num d7] /\
    derivable_pt_lim
      (fun s => orbit_energy self
                  (y0 + s * d0) (y1 + s * d1) (y2 + s * d2) (y3 + s * d3)
                  (y4 + s * d4) (y5 + s * d5) (y6 + s * d6) (y7 + s * d7))
      0 0.
Proof.
  intros Hd. rewrite orbit_dy_dt_apart by exact Hd.
  do 8 eexists. split; [reflexivity |].
  assert (Hq0 : 0 < (y0 - y4) ^ 2 + (y2 - y6) ^ 2).
  { destruct (Rle_lt_or_eq_dec _ _ (sum_sq_nonneg (y0 - y4) (y2 - y6)))
      as [Hlt | Heq]; [exact Hlt |].
    exfalso. apply Hd. unfold Orbit.dom. rewrite <- Heq. apply sqrt_0. }
  set (d := Orbit.dom y0 y2 y4 y6) in *.
  set (a1x := Orbit.G self * Orbit.m2 self * (y4 - y0) / d ^ 3).
  set (a1y := Orbit.G self * Orbit.m2 self * (y6 - y2) / d ^ 3).
  set (a2x := - Orbit.G self * Orbit.m1 self * (y4 - y0) / d ^ 3).
  set (a2y := - Orbit.G self * Orbit.m1 self * (y6 - y2) / d ^ 3).
  pose proof
    (energy_along_line
       (Orbit.m1 self * (y1 ^ 2 + y3 ^ 2) / 2
        + Orbit.m2 self * (y5 ^ 2 + y7 ^ 2) / 2)
       (Orbit.m1 self * (y1 * a1x + y3 * a1y)
        + Orbit.m2 self * (y5 * a2x + y7 * a2y))
       (Orbit.m1 self * (a1x ^ 2 + a1y ^ 2) / 2
        + Orbit.m2 self * (a2x ^ 2 + a2y ^ 2) / 2)
       (Orbit.G self * Orbit.m1 self * Orbit.m2 self)
       ((y0 - y4) ^ 2 + (y2 - y6) ^ 2)
       (2 * ((y0 - y4) * (y1 - y5) + (y2 - y6) * (y3 - y7)))
       ((y1 - y5) ^ 2 + (y3 - y7) ^ 2)
       Hq0) as H.
  fold (Orbit.dom y0 y2 y4 y6) in H. fold d in H.
  assert (E : Orbit.m1 self * (y1 * a1x + y3 * a1y)
              + Orbit.m2 self * (y5 * a2x + y7 * a2y)
              + Orbit.G self * Orbit.m1 self * Orbit.m2 self
                * (2 * ((y0 - y4) * (y1 - y5) + (y2 - y6) * (y3 - y7)))
                / (2 * d ^ 3) = 0)
    by (unfold a1x, a1y, a2x, a2y; field; exact Hd).
  rewrite E in H.
  eapply derivable_pt_lim_ext; [| exact H].
  intros s. unfold orbit_energy, Orbit.dom. cbv beta.
  match goal with
  | |- _ - _ / sqrt ?X = _ - _ / sqrt ?X' => replace X' with X by ring
  end.
  f_equal. field.
Qed.

Lemma orbit_energy_conserved_witness :
  Orbit.dom 0.1 0 (- (20 / 1) * 0.1) (- (20 / 1) * 0) <> 0 /\
  exists d0 d1 d2 d3 d4 d5 d6 d7,
    Orbit.dy_dt notebook_orbit 0 notebook_orbit_state =
    Ok [Num d0; Num d1; Num d2; Num d3; Num d4; Num d5; Num d6; Num d7] /\
    derivable_pt_lim
      (fun s => orbit_energy notebook_orbit
                  (0.1 + s * d0) (0 + s * d1) (0 + s * d2) (0.75 + s * d3)
                  (- (20 / 1) * 0.1 + s * d4) (- (20 / 1) * 0 + s * d5)
                  (- (20 / 1) * 0 + s * d6) (- (20 / 1) * 0.75 + s * d7))
      0 0.
Proof.
  split.
  - exact notebook_orbit_apart.
  - exact (orbit_energy_conserved notebook_orbit 0 _ _ _ _ _ _ _ _
             notebook_orbit_apart).
Defined.

(** * Further properties of the pendulum field *)

Lemma pendulum_dy_dt_ignores_tail (self : DoublePendulum.DoublePendulum)
      (t y0 y1 y2 y3 : R) (rest : list R) :
  DoublePendulum.dy_dt self t (y0 :: y1 :: y2 :: y3 :: rest) =
  DoublePendulum.dy_dt self t [y0; y1; y2; y3].
Proof. reflexivity. Qed.

Lemma fdiv_opp (a b : R) : fdiv (- a) b = fopp (fdiv a b).
Proof.
  unfold fdiv. destruct (Req_dec_T b 0) as [Eb | Nb].
  - destruct (Req_dec_T (- a) 0) as [E | N], (Req_dec_T a 0) as [E' | N'];
      try reflexivity; exfalso; lra.
  - cbn [fopp]. f_equal. field. exact Nb.
Qed.

Lemma denom_factor_mirror (self : DoublePendulum.DoublePendulum) (y0 y2 : R) :
  DoublePendulum.denom_factor self (- y0) (- y2) =
  DoublePendulum.denom_factor self y0 y2.
Proof.
  unfold DoublePendulum.denom_factor.
  replace (2 * - y0 - 2 * - y2) with (- (2 * y0 - 2 * y2)) by ring.
  now rewrite cos_neg.
Qed.

Lemma numer_1_mirror (self : DoublePendulum.DoublePendulum)
      (y0 y1 y2 y3 : R) :
  DoublePendulum.numer_1 self (- y0) (- y1) (- y2) (- y3) =
  - DoublePendulum.numer_1 self y0 y1 y2 y3.
Proof.
  unfold DoublePendulum.numer_1.
  replace (- y0 - 2 * - y2) with (- (y0 - 2 * y2)) by ring.
  replace (- y0 - - y2) with (- (y0 - y2)) by ring.
  rewrite !sin_neg, cos_neg. ring.
Qed.

Lemma numer_2_mirror (self : DoublePendulum.DoublePendulum)
      (y0 y1 y2 y3 : R) :
  DoublePendulum.numer_2 self (- y0) (- y1) (- y2) (- y3) =
  - DoublePendulum.numer_2 self y0 y1 y2 y3.
Proof.
  unfold DoublePendulum.numer_2.
  replace (- y0 - - y2) with (- (y0 - y2)) by ring.
  rewrite sin_neg, !cos_neg. ring.
Qed.

(** X8.  Mirror symmetry: the pendulum field is odd.  Negating all four
    components of the state negates all four entries of the derivative; a
    division by zero on one side is one on the other. *)
Theorem pendulum_dy_dt_odd (self : DoublePendulum.DoublePendulum)
        (t y0 y1 y2 y3 : R) :
  exists dy,
    DoublePendulum.dy_dt self t [y0; y1; y2; y3] = Ok dy /\
    DoublePendulum.dy_dt self t [- y0; - y1; - y2; - y3] = Ok (map fopp dy).
Proof.
  eexists. split; [apply pendulum_dy_dt_eq |].
  rewrite pendulum_dy_dt_eq. cbn [map fopp].
  unfold DoublePendulum.denom_1, DoublePendulum.denom_2.
  now rewrite denom_factor_mirror, numer_1_mirror, numer_2_mirror, !fdiv_opp.
Qed.

Lemma sin_period_Z (x : R) (k : Z) : sin (x + 2 * IZR k * PI) = sin x.
Proof.
  destruct (Z.le_gt_cases 0 k) as [Hk | Hk].
  - rewrite <- (Z2Nat.id k) by exact Hk. rewrite <- INR_IZR_INZ.
    apply sin_period.
  - rewrite <- (sin_period (x + 2 * IZR k * PI) (Z.to_nat (- k))).
    rewrite INR_IZR_INZ, Z2Nat.id by lia. rewrite opp_IZR. f_equal. ring.
Qed.

Lemma cos_period_Z (x : R) (k : Z) : cos (x + 2 * IZR k * PI) = cos x.
Proof.
  destruct (Z.le_gt_cases 0 k) as [Hk | Hk].
  - rewrite <- (Z2Nat.id k) by exact Hk. rewrite <- INR_IZR_INZ.
    apply cos_period.
  - rewrite <- (cos_period (x + 2 * IZR k * PI) (Z.to_nat (- k))).
    rewrite INR_IZR_INZ, Z2Nat.id by lia. rewrite opp_IZR. f_equal. ring.
Qed.

(** X9.  The pendulum field has period [2 PI] in each angle: adding whole
    turns, [j] to [phi_1] and [k] to [phi_2], changes nothing in the
    derivative. *)
Theorem pendulum_dy_dt_periodic (self : DoublePendulum.DoublePendulum)
        (t y0 y1 y2 y3 : R) (j k : Z) :
  DoublePendulum.dy_dt self t
    [y0 + 2 * IZR j * PI; y1; y2 + 2 * IZR k * PI; y3] =
  DoublePendulum.dy_dt self t [y0; y1; y2; y3].
Proof.
  rewrite !pendulum_dy_dt_eq.
  unfold DoublePendulum.denom_1, DoublePendulum.denom_2,
    DoublePendulum.denom_factor, DoublePendulum.numer_1,
    DoublePendulum.numer_2.
  replace (y0 + 2 * IZR j * PI - 2 * (y2 + 2 * IZR k * PI))
    with (y0 - 2 * y2 + 2 * IZR (j - 2 * k) * PI)
    by (rewrite minus_IZR, mult_IZR; ring).
  replace (y0 + 2 * IZR j * PI - (y2 + 2 * IZR k * PI))
    with (y0 - y2 + 2 * IZR (j - k) * PI)
    by (rewrite minus_IZR; ring).
  replace (2 * (y0 + 2 * IZR j * PI) - 2 * (y2 + 2 * IZR k * PI))
    with (2 * y0 - 2 * y2 + 2 * IZR (2 * j - 2 * k) * PI)
    by (rewrite minus_IZR, !mult_IZR; ring).
  now rewrite !sin_period_Z, !cos_period_Z.
Qed.

(** X11.  Without a lower bob, [m2 = 0], the upper arm is a simple
    pendulum, [phi_1'' = - (g / L1) sin phi_1], whatever the lower arm
    does. *)
Theorem pendulum_massless_lower_bob (self : DoublePendulum.DoublePendulum)
        (t y0 y1 y2 y3 : R) :
  DoublePendulum.m2 self = 0 ->
  DoublePendulum.m1 self <> 0 ->
  DoublePendulum.L1 self <> 0 -> DoublePendulum.L2 self <> 0 ->
  DoublePendulum.dy_dt self t [y0; y1; y2; y3] =
  Ok [ Num y1;
       Num (- (DoublePendulum.g self / DoublePendulum.L1 self) * sin y0);
       Num y3;
       Num (sin (y0 - y2)
            * (y1 ^ 2 * DoublePendulum.L1 self
               + DoublePendulum.g self * cos y0)
            / DoublePendulum.L2 self) ].
Proof.
  intros Hm2 Hm1 HL1 HL2.
  assert (Hf : DoublePendulum.denom_factor self y0 y2
               = 2 * DoublePendulum.m1 self)
    by (unfold DoublePendulum.denom_factor; rewrite Hm2; ring).
  rewrite pendulum_dy_dt_eq.
  unfold DoublePendulum.denom_1, DoublePendulum.denom_2. rewrite Hf.
  rewrite !fdiv_nonzero
    by (apply Rmult_integral_contrapositive; split; lra).
  unfold DoublePendulum.numer_1, DoublePendulum.numer_2. rewrite Hm2.
  repeat (f_equal; try (field; split; assumption)).
Qed.

Lemma pendulum_massless_lower_bob_witness :
  (0 = 0 /\ 1 <> 0 /\ 1 <> 0 /\ 1 <> 0) /\
  DoublePendulum.dy_dt
    (DoublePendulum.init (Some 1) (Some 1) (Some 1) (Some 0) (Some 1))
    0 [PI / 2; 0; PI; 0] =
  Ok [ Num 0; Num (- (1 / 1) * sin (PI / 2)); Num 0;
       Num (sin (PI / 2 - PI) * (0 ^ 2 * 1 + 1 * cos (PI / 2)) / 1) ].
Proof.
  split.
  - repeat split; lra.
  - apply (pendulum_massless_lower_bob
             (DoublePendulum.init (Some 1) (Some 1) (Some 1) (Some 0) (Some 1))
             0 (PI / 2) 0 PI 0); cbn; lra.
Defined.

(** * Further properties of the drivers *)

(** The program [Orbit.solve_ode] is on sample times that are not empty. *)
Lemma orbit_solve_ode_program (self : Orbit.Orbit) (t_pts : list R)
      (x_1_0 x_1_dot_0 y_1_0 y_1_dot_0 x_2_0 x_2_dot_0 y_2_0 y_2_dot_0 : R)
      (abserr relerr : option R) :
  t_pts <> [] ->
  Orbit.solve_ode self t_pts x_1_0 x_1_dot_0 y_1_0 y_1_dot_0
                  x_2_0 x_2_dot_0 y_2_0 y_2_dot_0 abserr relerr =
  SolveIvp
    {| req_fun := Orbit.dy_dt self;
       req_t_span := (hd 0 t_pts, last t_pts 0);
       req_y0 := [x_1_0; x_1_dot_0; y_1_0; y_1_dot_0;
                  x_2_0; x_2_dot_0; y_2_0; y_2_dot_0];
       req_t_eval := t_pts;
       req_atol := with_default abserr default_tol;
       req_rtol := with_default relerr default_tol |}
    (fun solution =>
       match sol_y solution with
       | [a; b; c; d; e; f; g; h] => Ret (a, b, c, d, e, f, g, h)
       | _ => Throw ValueError
       end).
Proof.
  intros Hne. destruct (getitem_first_last t_pts Hne) as [Efirst Elast].
  unfold Orbit.solve_ode. now rewrite Efirst, Elast.
Qed.

Lemma pendulum_solve_ode_program (self : DoublePendulum.DoublePendulum)
      (t_pts : list R) (phi_1_0 phi_1_dot_0 phi_2_0 phi_2_dot_0 : R)
      (abserr relerr : option R) :
  t_pts <> [] ->
  DoublePendulum.solve_ode self t_pts phi_1_0 phi_1_dot_0 phi_2_0 phi_2_dot_0
                           abserr relerr =
  SolveIvp
    {| req_fun := DoublePendulum.dy_dt self;
       req_t_span := (hd 0 t_pts, last t_pts 0);
       req_y0 := [phi_1_0; phi_1_dot_0; phi_2_0; phi_2_dot_0];
       req_t_eval := t_pts;
       req_atol := with_default abserr default_tol;
       req_rtol := with_default relerr default_tol |}
    (fun solution =>
       match sol_y solution with
       | [a; b; c; d] => Ret (a, b, c, d)
       | _ => Throw ValueError
       end).
Proof.
  intros Hne. destruct (getitem_first_last t_pts Hne) as [Efirst Elast].
  unfold DoublePendulum.solve_ode. now rewrite Efirst, Elast.
Qed.

(** X12.  The ways [Orbit.solve_ode] ends.  On empty sample times it raises
    [IndexError] without reaching the solver.  Otherwise an exception of
    the solver propagates as it is, an answer that does not have exactly
    eight rows raises [ValueError], and eight rows are returned as they
    are: their lengths are not compared with [t_pts], so rows cut short by
    the solver come back without an error. *)
Theorem orbit_solve_ode_outcomes
        (solver : ivp_request -> result OdeResult)
        (self : Orbit.Orbit) (t_pts : list R)
        (x_1_0 x_1_dot_0 y_1_0 y_1_dot_0 x_2_0 x_2_dot_0 y_2_0 y_2_dot_0 : R)
        (abserr relerr : option R) :
  let p := Orbit.solve_ode self t_pts x_1_0 x_1_dot_0 y_1_0 y_1_dot_0
                           x_2_0 x_2_dot_0 y_2_0 y_2_dot_0 abserr relerr in
  let req :=
    {| req_fun := Orbit.dy_dt self;
       req_t_span := (hd 0 t_pts, last t_pts 0);
       req_y0 := [x_1_0; x_1_dot_0; y_1_0; y_1_dot_0;
                  x_2_0; x_2_dot_0; y_2_0; y_2_dot_0];
       req_t_eval := t_pts;
       req_atol := with_default abserr default_tol;
       req_rtol := with_default relerr default_tol |} in
  (t_pts = [] -> p = Throw IndexError /\ run solver p = Raise IndexError) /\
  (t_pts <> [] ->
   (forall e, solver req = Raise e -> run solver p = Raise e) /\
   (forall sol, solver req = Ok sol -> length (sol_y sol) <> 8%nat ->
                run solver p = Raise ValueError) /\
   (forall a b c d e f g h,
       solver req = Ok {| sol_y := [a; b; c; d; e; f; g; h] |} ->
       run solver p = Ok (a, b, c, d, e, f, g, h))).
Proof.
  intros p req. split.
  - intros ->. split; reflexivity.
  - intros Hne. unfold p. rewrite orbit_solve_ode_program by exact Hne.
    fold req. cbn [run]. repeat split.
    + intros e ->. reflexivity.
    + intros [rows] -> Hlen. cbn [sol_y] in *.
      do 8 (destruct rows as [| ? rows]; [reflexivity |]).
      destruct rows; [now elim Hlen | reflexivity].
    + intros a b c d e f g h ->. reflexivity.
Qed.

Lemma orbit_solve_ode_outcomes_witness :
  (Orbit.solve_ode notebook_orbit [] 0.1 0 0 0.75 (-2) 0 0 (-15) None None
   = Throw IndexError) /\
  run (fun _ => Ok {| sol_y := [[]; []; []; []; []; []; []; [Num 1]] |})
      (Orbit.solve_ode notebook_orbit three_samples
                       0.1 0 0 0.75 (-2) 0 0 (-15) None None)
  = Ok ([], [], [], [], [], [], [], [Num 1]).
Proof.
  split.
  - apply (orbit_solve_ode_outcomes constant_solver notebook_orbit []).
    reflexivity.
  - apply (orbit_solve_ode_outcomes
             (fun _ => Ok {| sol_y := [[]; []; []; []; []; []; []; [Num 1]] |})
             notebook_orbit three_samples);
      [discriminate | reflexivity].
Defined.

(** X13.  The ways [DoublePendulum.solve_ode] ends: as for the two-body
    driver, with four rows in place of eight. *)
Theorem pendulum_solve_ode_outcomes
        (solver : ivp_request -> result OdeResult)
        (self : DoublePendulum.DoublePendulum) (t_pts : list R)
        (phi_1_0 phi_1_dot_0 phi_2_0 phi_2_dot_0 : R)
        (abserr relerr : option R) :
  let p := DoublePendulum.solve_ode self t_pts phi_1_0 phi_1_dot_0
                                    phi_2_0 phi_2_dot_0 abserr relerr in
  let req :=
    {| req_fun := DoublePendulum.dy_dt self;
       req_t_span := (hd 0 t_pts, last t_pts 0);
       req_y0 := [phi_1_0; phi_1_dot_0; phi_2_0; phi_2_dot_0];
       req_t_eval := t_pts;
       req_atol := with_default abserr default_tol;
       req_rtol := with_default relerr default_tol |} in
  (t_pts = [] -> p = Throw IndexError /\ run solver p = Raise IndexError) /\
  (t_pts <> [] ->
   (forall e, solver req = Raise e -> run solver p = Raise e) /\
   (forall sol, solver req = Ok sol -> length (sol_y sol) <> 4%nat ->
                run solver p = Raise ValueError) /\
   (forall a b c d,
       solver req = Ok {| sol_y := [a; b; c; d] |} ->
       run solver p = Ok (a, b, c, d))).
Proof.
  intros p req. split.
  - intros ->. split; reflexivity.
  - intros Hne. unfold p. rewrite pendulum_solve_ode_program by exact Hne.
    fold req. cbn [run]. repeat split.
    + intros e ->. reflexivity.
    + intros [rows] -> Hlen. cbn [sol_y] in *.
      do 4 (destruct rows as [| ? rows]; [reflexivity |]).
      destruct rows; [now elim Hlen | reflexivity].
    + intros a b c d ->. reflexivity.
Qed.

Lemma pendulum_solve_ode_outcomes_witness :
  (DoublePendulum.solve_ode notebook_pendulum [] (PI / 2) 0 PI 0 None None
   = Throw IndexError) /\
  run (fun _ => Raise ValueError)
      (DoublePendulum.solve_ode notebook_pendulum three_samples
                                (PI / 2) 0 PI 0 None None)
  = Raise ValueError.
Proof.
  split.
  - apply (pendulum_solve_ode_outcomes constant_solver notebook_pendulum []).
    reflexivity.
  - apply (pendulum_solve_ode_outcomes
             (fun _ => Raise ValueError) notebook_pendulum three_samples);
      [discriminate | reflexivity].
Defined.

Lemma sorted_nth_le (l : list R) :
  Sorted Rle l ->
  forall i j, (i <= j)%nat -> (j < length l)%nat -> nth i l 0 <= nth j l 0.
Proof.
  intros Hs. apply Sorted_StronglySorted in Hs;
    [| intros a b c; apply Rle_trans].
  induction Hs as [| a l Hs IH Hall]; intros i j Hij Hj.
  - cbn in Hj. lia.
  - destruct j as [| j].
    + replace i with 0%nat by lia. lra.
    + destruct i as [| i]; cbn [nth].
      * rewrite Forall_forall in Hall. apply Hall, nth_In. cbn in Hj. lia.
      * apply IH; [lia | cbn in Hj; lia].
Qed.

Lemma hd_is_nth (l : list R) : hd 0 l = nth 0 l 0.
Proof. now destruct l. Qed.

Lemma last_is_nth (l : list R) : last l 0 = nth (pred (length l)) l 0.
Proof.
  induction l as [| a l IH]; [reflexivity |].
  destruct l as [| b l]; [reflexivity |].
  cbn [last length pred nth] in *. exact IH.
Qed.

Lemma sorted_within_ends (l : list R) :
  Sorted Rle l -> Forall (fun t => hd 0 l <= t <= last l 0) l.
Proof.
  intros Hs. apply Forall_forall. intros t Hin.
  destruct (In_nth l t 0 Hin) as (k & Hk & <-).
  rewrite hd_is_nth, last_is_nth.
  split; apply sorted_nth_le; (assumption || lia).
Qed.

(** X14.  On sample times in increasing order both drivers hand the solver
    a span that starts no later than it ends and contains every sample
    time. *)
Theorem solve_ode_span_covers_samples
        (orbit : Orbit.Orbit) (pendulum : DoublePendulum.DoublePendulum)
        (t_pts : list R)
        (x_1_0 x_1_dot_0 y_1_0 y_1_dot_0 x_2_0 x_2_dot_0 y_2_0 y_2_dot_0 : R)
        (phi_1_0 phi_1_dot_0 phi_2_0 phi_2_dot_0 : R)
        (abserr relerr : option R) :
  t_pts <> [] ->
  Sorted Rle t_pts ->
  (exists req k,
      Orbit.solve_ode orbit t_pts x_1_0 x_1_dot_0 y_1_0 y_1_dot_0
                      x_2_0 x_2_dot_0 y_2_0 y_2_dot_0 abserr relerr
      = SolveIvp req k /\
      fst (req_t_span req) <= snd (req_t_span req) /\
      Forall (fun t => fst (req_t_span req) <= t <= snd (req_t_span req))
             (req_t_eval req)) /\
  (exists req k,
      DoublePendulum.solve_ode pendulum t_pts phi_1_0 phi_1_dot_0
                               phi_2_0 phi_2_dot_0 abserr relerr
      = SolveIvp req k /\
      fst (req_t_span req) <= snd (req_t_span req) /\
      Forall (fun t => fst (req_t_span req) <= t <= snd (req_t_span req))
             (req_t_eval req)).
Proof.
  intros Hne Hs.
  pose proof (sorted_within_ends t_pts Hs) as Hall.
  assert (Hends : hd 0 t_pts <= last t_pts 0).
  { destruct t_pts as [| t0 ts]; [congruence |].
    rewrite Forall_forall in Hall.
    destruct (Hall t0 (or_introl eq_refl)) as [_ H]. exact H. }
  split.
  - rewrite orbit_solve_ode_program by exact Hne.
    do 2 eexists. split; [reflexivity |]. cbn [req_t_span req_t_eval fst snd].
    split; assumption.
  - rewrite pendulum_solve_ode_program by exact Hne.
    do 2 eexists. split; [reflexivity |]. cbn [req_t_span req_t_eval fst snd].
    split; assumption.
Qed.

Lemma solve_ode_span_covers_samples_witness :
  (three_samples <> [] /\ Sorted Rle three_samples) /\
  (exists req k,
      Orbit.solve_ode notebook_orbit three_samples
                      0.1 0 0 0.75 (-2) 0 0 (-15) None None
      = SolveIvp req k /\
      fst (req_t_span req) <= snd (req_t_span req) /\
      Forall (fun t => fst (req_t_span req) <= t <= snd (req_t_span req))
             (req_t_eval req)) /\
  (exists req k,
      DoublePendulum.solve_ode notebook_pendulum three_samples
                               (PI / 2) 0 PI 0 None None
      = SolveIvp req k /\
      fst (req_t_span req) <= snd (req_t_span req) /\
      Forall (fun t => fst (req_t_span req) <= t <= snd (req_t_span req))
             (req_t_eval req)).
Proof.
  split.
  - split; [discriminate | exact three_samples_sorted].
  - apply (solve_ode_span_covers_samples
             notebook_orbit notebook_pendulum three_samples);
      [discriminate | exact three_samples_sorted].
Defined.

(** * Further properties of the nearest-sample helper *)

(** X15.  [start_stop_indices] raises exactly on an empty [t_pts], and what
    it raises is [ValueError]. *)
Theorem start_stop_indices_raises_iff_empty (t_pts : list R)
        (plot_start plot_stop : R) :
  (start_stop_indices t_pts plot_start plot_stop = Raise ValueError
   <-> t_pts = []) /\
  start_stop_indices t_pts plot_start plot_stop <> Raise IndexError.
Proof.
  destruct t_pts as [| t0 ts].
  - repeat split; discriminate.
  - assert (Hne : t0 :: ts <> []) by discriminate.
    destruct (nearest_index _ plot_start Hne) as (i & Ei & _).
    destruct (nearest_index _ plot_stop Hne) as (j & Ej & _).
    unfold start_stop_indices. rewrite Ei, Ej. cbn [bind].
    repeat split; discriminate.
Qed.

(** X16.  Of several samples equally near, the earliest is returned: every
    sample before the returned index is strictly farther from the requested
    time. *)
Theorem start_stop_indices_first_nearest (t_pts : list R)
        (plot_start plot_stop : R) (i j : nat) :
  start_stop_indices t_pts plot_start plot_stop = Ok (i, j) ->
  (forall k, (k < i)%nat ->
     Rabs (nth i t_pts 0 - plot_start) < Rabs (nth k t_pts 0 - plot_start)) /\
  (forall k, (k < j)%nat ->
     Rabs (nth j t_pts 0 - plot_stop) < Rabs (nth k t_pts 0 - plot_stop)).
Proof.
  intros E.
  destruct t_pts as [| t0 ts]; [discriminate |].
  assert (Hne : t0 :: ts <> []) by discriminate.
  destruct (nearest_index _ plot_start Hne) as (i' & Ei & _ & _ & Hfi).
  destruct (nearest_index _ plot_stop Hne) as (j' & Ej & _ & _ & Hfj).
  unfold start_stop_indices in E. rewrite Ei, Ej in E. cbn [bind] in E.
  injection E as <- <-. split; assumption.
Qed.

Lemma two_nearest_samples_tie :
  start_stop_indices [0; 1; 2] 0.5 1.5 = Ok (0%nat, 1%nat).
Proof.
  unfold start_stop_indices, fabs_diff, argmin.
  cbn [map argmin_scan bind].
  unfold Rabs.
  repeat match goal with
         | |- context [Rcase_abs ?x] => destruct (Rcase_abs x); try lra
         end.
  repeat match goal with
         | |- context [Rlt_dec ?x ?y] => destruct (Rlt_dec x y); try lra
         end.
  reflexivity.
Qed.

Lemma start_stop_indices_first_nearest_witness :
  start_stop_indices [0; 1; 2] 0.5 1.5 = Ok (0%nat, 1%nat) /\
  (forall k, (k < 0)%nat ->
     Rabs (nth 0 [0; 1; 2] 0 - 0.5) < Rabs (nth k [0; 1; 2] 0 - 0.5)) /\
  (forall k, (k < 1)%nat ->
     Rabs (nth 1 [0; 1; 2] 0 - 1.5) < Rabs (nth k [0; 1; 2] 0 - 1.5)).
Proof.
  split.
  - exact two_nearest_samples_tie.
  - exact (start_stop_indices_first_nearest [0; 1; 2] 0.5 1.5 0 1
             two_nearest_samples_tie).
Defined.

(** Both indices with what [nearest_index] says of them. *)
Lemma start_stop_indices_inv (t_pts : list R) (plot_start plot_stop : R)
      (i j : nat) :
  start_stop_indices t_pts plot_start plot_stop = Ok (i, j) ->
  ((i < length t_pts)%nat /\
   (forall k, (k < length t_pts)%nat ->
      Rabs (nth i t_pts 0 - plot_start) <= Rabs (nth k t_pts 0 - plot_start)) /\
   (forall k, (k < i)%nat ->
      Rabs (nth i t_pts 0 - plot_start) < Rabs (nth k t_pts 0 - plot_start))) /\
  ((j < length t_pts)%nat /\
   (forall k, (k < length t_pts)%nat ->
      Rabs (nth j t_pts 0 - plot_stop) <= Rabs (nth k t_pts 0 - plot_stop)) /\
   (forall k, (k < j)%nat ->
      Rabs (nth j t_pts 0 - plot_stop) < Rabs (nth k t_pts 0 - plot_stop))).
Proof.
  intros E.
  destruct t_pts as [| t0 ts]; [discriminate |].
  assert (Hne : t0 :: ts <> []) by discriminate.
  destruct (nearest_index _ plot_start Hne) as (i' & Ei & Hi).
  destruct (nearest_index _ plot_stop Hne) as (j' & Ej & Hj).
  unfold start_stop_indices in E. rewrite Ei, Ej in E. cbn [bind] in E.
  injection E as <- <-. split; assumption.
Qed.

(** X18.  A requested time that is itself a sample is found exactly: the
    sample at the returned index equals it. *)
Theorem start_stop_indices_exact (t_pts : list R)
        (plot_start plot_stop : R) (i j : nat) :
  start_stop_indices t_pts plot_start plot_stop = Ok (i, j) ->
  (In plot_start t_pts -> nth i t_pts 0 = plot_start) /\
  (In plot_stop t_pts -> nth j t_pts 0 = plot_stop).
Proof.
  intros E.
  destruct (start_stop_indices_inv _ _ _ _ _ E)
    as ((_ & Hmin_i & _) & (_ & Hmin_j & _)).
  split; intros Hin; destruct (In_nth _ _ 0 Hin) as (k & Hk & Ek).
  - specialize (Hmin_i k Hk). rewrite Ek in Hmin_i.
    replace (plot_start - plot_start) with 0 in Hmin_i by ring.
    rewrite Rabs_R0 in Hmin_i.
    pose proof (Rabs_pos (nth i t_pts 0 - plot_start)) as Hp.
    assert (Hz : Rabs (nth i t_pts 0 - plot_start) = 0) by lra.
    destruct (Req_dec_T (nth i t_pts 0 - plot_start) 0) as [Z | N];
      [lra | now apply Rabs_no_R0 in N].
  - specialize (Hmin_j k Hk). rewrite Ek in Hmin_j.
    replace (plot_stop - plot_stop) with 0 in Hmin_j by ring.
    rewrite Rabs_R0 in Hmin_j.
    pose proof (Rabs_pos (nth j t_pts 0 - plot_stop)) as Hp.
    assert (Hz : Rabs (nth j t_pts 0 - plot_stop) = 0) by lra.
    destruct (Req_dec_T (nth j t_pts 0 - plot_stop) 0) as [Z | N];
      [lra | now apply Rabs_no_R0 in N].
Qed.

Lemma three_samples_exact_request :
  start_stop_indices three_samples 1 2 = Ok (1%nat, 2%nat).
Proof. eval_nearest. Qed.

Lemma start_stop_indices_exact_witness :
  (start_stop_indices three_samples 1 2 = Ok (1%nat, 2%nat) /\
   In 1 three_samples /\ In 2 three_samples) /\
  nth 1 three_samples 0 = 1 /\ nth 2 three_samples 0 = 2.
Proof.
  assert (H1 : In 1 three_samples) by (cbn; auto).
  assert (H2 : In 2 three_samples) by (cbn; auto).
  split; [split; [exact three_samples_exact_request | split; assumption] |].
  destruct (start_stop_indices_exact three_samples 1 2 1 2
              three_samples_exact_request) as [Hstart Hstop].
  split; [exact (Hstart H1) | exact (Hstop H2)].
Defined.

(** * Properties of the plotting helper *)

(** X20.  [plot_y_vs_x] draws exactly one line, before any other call on
    the axis.  The call is [semilogy] when that flag is set, whatever
    [loglog] says, [loglog] when only that flag is set, and [plot]
    otherwise; the axis is the one passed, or the current one when none is
    passed. *)
Theorem plot_y_vs_x_draws_once (gca : nat) (x y : list R)
        (axis_labels : option (list String.string))
        (label title color linestyle : option String.string)
        (semilogy loglog : bool) (ax : option nat) :
  exists rest outcome,
    plot_y_vs_x gca x y axis_labels label title color linestyle
                semilogy loglog ax
    = (match ax with Some a => a | None => gca end,
       (if semilogy then Semilogy x y label color linestyle
        else if loglog then Loglog x y label color linestyle
        else Plot x y label color linestyle) :: rest,
       outcome) /\
    forallb (fun c => negb (is_draw c)) rest = true.
Proof.
  unfold plot_y_vs_x, label_axes, getitem.
  destruct axis_labels as [[| xl [| yl labels]] |], label, title;
    cbn; do 2 eexists; split; reflexivity.
Qed.

(** [plot_y_vs_x] touches the legend and the title only when asked:
    [legend] is called exactly when a label is passed, and a title is set
    exactly when one is passed, to that title. *)
Lemma plot_y_vs_x_legend_and_title (gca : nat) (x y : list R)
        (axis_labels : option (list String.string))
        (label title color linestyle : option String.string)
        (semilogy loglog : bool) (ax : option nat) :
  let '(_, calls, _) :=
    plot_y_vs_x gca x y axis_labels label title color linestyle
                semilogy loglog ax in
  (In Legend calls <-> label <> None) /\
  (forall s, In (SetTitle s) calls <-> title = Some s).
Proof.
  unfold plot_y_vs_x, label_axes, getitem.
  destruct axis_labels as [[| xl [| yl labels]] |], label, title,
    semilogy, loglog; cbn;
    (split; [| intros ?]; intuition (try discriminate; try congruence)).
Qed.

(** * Properties of the driving cells *)

Lemma ceil_bounds (x : R) : x <= IZR (ceil x) < x + 1.
Proof.
  unfold ceil. rewrite minus_IZR.
  destruct (archimed (- x)) as [Hgt Hle]. lra.
Qed.

Lemma ceil_nonpositive (x : R) : x <= 0 -> Z.to_nat (ceil x) = 0%nat.
Proof.
  intros Hx. destruct (ceil_bounds x) as [_ Hhi].
  assert (Hlt : (ceil x < 1)%Z) by (apply lt_IZR; lra). lia.
Qed.

(** X23.  The edge cases of the sample times.  A zero step raises.  With a
    positive step and [t_end + delta_t <= t_start] the array is empty, and
    both drivers then raise [IndexError] before they reach the solver. *)
Theorem cell_t_pts_degenerate
        (orbit : Orbit.Orbit) (pendulum : DoublePendulum.DoublePendulum)
        (t_start t_end delta_t : R)
        (x_1_0 x_1_dot_0 y_1_0 y_1_dot_0 x_2_0 x_2_dot_0 y_2_0 y_2_dot_0 : R)
        (phi_1_0 phi_1_dot_0 phi_2_0 phi_2_dot_0 : R)
        (abserr relerr : option R) :
  (delta_t = 0 -> cell_t_pts t_start t_end delta_t = None) /\
  (0 < delta_t -> t_end + delta_t <= t_start ->
   exists t_pts,
     cell_t_pts t_start t_end delta_t = Some t_pts /\
     t_pts = [] /\
     Orbit.solve_ode orbit t_pts x_1_0 x_1_dot_0 y_1_0 y_1_dot_0
                     x_2_0 x_2_dot_0 y_2_0 y_2_dot_0 abserr relerr
     = Throw IndexError /\
     DoublePendulum.solve_ode pendulum t_pts phi_1_0 phi_1_dot_0
                              phi_2_0 phi_2_dot_0 abserr relerr
     = Throw IndexError).
Proof.
  unfold cell_t_pts, arange. split.
  - intros ->. destruct (Req_dec_T 0 0) as [_ | N]; [reflexivity | now elim N].
  - intros Hd Hle. destruct (Req_dec_T delta_t 0) as [E | _]; [lra |].
    rewrite ceil_nonpositive.
    + eexists. repeat split.
    + apply Rmult_le_reg_r with delta_t; [exact Hd |].
      unfold Rdiv. rewrite Rmult_assoc, Rinv_l by lra. lra.
Qed.

Lemma cell_t_pts_degenerate_witness :
  cell_t_pts 0 20 0 = None /\
  exists t_pts,
    cell_t_pts 20 0 0.0001 = Some t_pts /\
    t_pts = [] /\
    Orbit.solve_ode notebook_orbit t_pts 0.1 0 0 0.75 (-2) 0 0 (-15) None None
    = Throw IndexError /\
    DoublePendulum.solve_ode notebook_pendulum t_pts (PI / 2) 0 PI 0 None None
    = Throw IndexError.
Proof.
  split.
  - apply (cell_t_pts_degenerate notebook_orbit notebook_pendulum 0 20 0
             0 0 0 0 0 0 0 0 0 0 0 0 None None).
    reflexivity.
  - apply (cell_t_pts_degenerate notebook_orbit notebook_pendulum 20 0 0.0001);
      lra.
Defined.

(** X25.  The second body of the orbit notebook mirrors the first by the
    mass ratio: for [m2 <> 0] the initial conditions put the centre of
    mass at the origin and give the system no momentum,
    [m1 r1 + m2 r2 = 0] and [m1 v1 + m2 v2 = 0]; for [m2 = 0] the cell
    raises. *)
Theorem cell_second_body_centre_of_mass
        (m1 m2 x_1_0 x_1_dot_0 y_1_0 y_1_dot_0 : R) :
  (m2 = 0 ->
   cell_second_body m1 m2 x_1_0 x_1_dot_0 y_1_0 y_1_dot_0 = None) /\
  (m2 <> 0 ->
   exists x_2_0 x_2_dot_0 y_2_0 y_2_dot_0,
     cell_second_body m1 m2 x_1_0 x_1_dot_0 y_1_0 y_1_dot_0
     = Some (x_2_0, x_2_dot_0, y_2_0, y_2_dot_0) /\
     m1 * x_1_0 + m2 * x_2_0 = 0 /\
     m1 * y_1_0 + m2 * y_2_0 = 0 /\
     m1 * x_1_dot_0 + m2 * x_2_dot_0 = 0 /\
     m1 * y_1_dot_0 + m2 * y_2_dot_0 = 0).
Proof.
  unfold cell_second_body. split.
  - intros ->. destruct (Req_dec_T 0 0) as [_ | N]; [reflexivity | now elim N].
  - intros Hm2. destruct (Req_dec_T m2 0) as [E | _]; [contradiction |].
    do 4 eexists. split; [reflexivity |]. repeat split; field; exact Hm2.
Qed.

Lemma cell_second_body_centre_of_mass_witness :
  (1 <> 0) /\
  exists x_2_0 x_2_dot_0 y_2_0 y_2_dot_0,
    cell_second_body 20 1 0.1 0 0 0.75
    = Some (x_2_0, x_2_dot_0, y_2_0, y_2_dot_0) /\
    20 * 0.1 + 1 * x_2_0 = 0 /\
    20 * 0 + 1 * y_2_0 = 0 /\
    20 * 0 + 1 * x_2_dot_0 = 0 /\
    20 * 0.75 + 1 * y_2_dot_0 = 0.
Proof.
  split.
  - lra.
  - apply (cell_second_body_centre_of_mass 20 1 0.1 0 0 0.75). lra.
Defined.

(** * Where exact arithmetic and binary64 part ways *)

Lemma moderate_of_bounds (x : R) : - 10 ^ 30 <= x <= 10 ^ 30 -> moderate x.
Proof. intros [Hlo Hhi]. unfold moderate. apply Rabs_le. lra. Qed.

Lemma well_scaled_pos (x : R) : well_scaled x -> 0 < x.
Proof.
  intros [Hlo _].
  assert (H : 0 < / 10 ^ 30) by (apply Rinv_0_lt_compat; lra). lra.
Qed.

Lemma moderate_pendulum_regime (self : DoublePendulum.DoublePendulum) :
  moderate_pendulum self ->
  0 < DoublePendulum.L1 self /\ 0 < DoublePendulum.L2 self /\
  0 < DoublePendulum.m1 self /\ 0 <= DoublePendulum.m2 self.
Proof.
  intros (HL1 & HL2 & Hm1 & [Hm2 _] & _).
  repeat split; (apply well_scaled_pos; assumption) || assumption.
Qed.

Lemma notebook_pendulum_moderate : moderate_pendulum notebook_pendulum.
Proof.
  assert (H : 0 < / 10 ^ 30) by (apply Rinv_0_lt_compat; lra).
  assert (H1 : / 10 ^ 30 <= 1).
  { rewrite <- Rinv_1. apply Rinv_le_contravar; lra. }
  unfold moderate_pendulum, well_scaled. cbn.
  repeat split; try lra. apply moderate_of_bounds. lra.
Qed.

Lemma b64_mul_zero_r (a z : B64.t) :
  B64.is_finite a = true -> B64.is_zero z = true ->
  B64.is_zero (B64.mul a z) = true.
Proof. destruct a, z; try discriminate; reflexivity. Qed.

Lemma b64_mul_zero_l (a z : B64.t) :
  B64.is_zero z = true -> B64.is_finite a = true ->
  B64.is_zero (B64.mul z a) = true.
Proof. destruct a, z; try discriminate; reflexivity. Qed.

Lemma b64_sub_zeros (a b : B64.t) :
  B64.is_zero a = true -> B64.is_zero b = true ->
  B64.is_zero (B64.sub a b) = true.
Proof.
  destruct a as [[] | | |], b as [[] | | |]; try discriminate; reflexivity.
Qed.

Lemma b64_add_zeros (a b : B64.t) :
  B64.is_zero a = true -> B64.is_zero b = true ->
  B64.is_zero (B64.add a b) = true.
Proof.
  destruct a as [[] | | |], b as [[] | | |]; try discriminate; reflexivity.
Qed.

Lemma b64_add_zero_l (z a : B64.t) :
  B64.is_zero z = true -> B64.is_finite a = true ->
  B64.is_finite (B64.add z a) = true.
Proof.
  destruct a as [[] | | |], z as [[] | | |]; try discriminate; reflexivity.
Qed.

Lemma b64_add_zero_r (z a : B64.t) :
  B64.is_finite a = true -> B64.is_zero z = true ->
  B64.is_finite (B64.add a z) = true.
Proof.
  destruct a as [[] | | |], z as [[] | | |]; try discriminate; reflexivity.
Qed.

Lemma b64_div_zero (z d : B64.t) :
  B64.is_zero z = true -> B64.is_nonzero d = true ->
  B64.is_zero (B64.div z d) = true.
Proof. destruct z, d; try discriminate; reflexivity. Qed.

Lemma b64_zero_is_finite (z : B64.t) :
  B64.is_zero z = true -> B64.is_finite z = true.
Proof. destruct z; try discriminate; reflexivity. Qed.

(** The state of rest on binary64: where nothing overflows and the
    divisors are nonzero, both angular accelerations are zeros. *)
Lemma pendulum64_rest (lm : DoublePendulum64.libm)
      (self : DoublePendulum64.DoublePendulum) (t : B64.t) :
  DoublePendulum64.no_overflow_at_rest self = true ->
  B64.is_nonzero (DoublePendulum64.denom_1 lm self B64.zero B64.zero) = true ->
  B64.is_nonzero (DoublePendulum64.denom_2 lm self B64.zero B64.zero) = true ->
  exists a1 a2,
    DoublePendulum64.dy_dt lm self t rest64 = Ok [B64.zero; a1; B64.zero; a2] /\
    B64.is_zero a1 = true /\ B64.is_zero a2 = true.
Proof.
  intros Hfin Hd1 Hd2.
  unfold DoublePendulum64.no_overflow_at_rest in Hfin.
  repeat (apply andb_prop in Hfin; destruct Hfin as [Hfin ?]).
  do 2 eexists. split; [reflexivity |].
  assert (Hz : B64.is_zero B64.zero = true) by reflexivity.
  split; apply b64_div_zero; try assumption.
  - unfold DoublePendulum64.numer_1.
    change (B64.sub B64.zero (B64.mul B64.two B64.zero)) with B64.zero.
    change (B64.sub B64.zero B64.zero) with B64.zero.
    change (B64.pow B64.zero 2) with B64.zero.
    change (DoublePendulum64.np_sin lm B64.zero) with B64.zero.
    change (DoublePendulum64.np_cos lm B64.zero) with B64.one.
    change (B64.mul B64.two B64.zero) with B64.zero.
    apply b64_sub_zeros; [apply b64_sub_zeros |].
    + apply b64_mul_zero_r; [assumption | exact Hz].
    + apply b64_mul_zero_r; [assumption | exact Hz].
    + apply b64_mul_zero_l.
      * apply b64_mul_zero_l; [exact Hz | assumption].
      * apply b64_zero_is_finite, b64_add_zeros.
        -- apply b64_mul_zero_l; [exact Hz | assumption].
        -- apply b64_mul_zero_l; [| reflexivity].
           apply b64_mul_zero_l; [exact Hz | assumption].
  - unfold DoublePendulum64.numer_2.
    change (B64.sub B64.zero B64.zero) with B64.zero.
    change (B64.pow B64.zero 2) with B64.zero.
    change (DoublePendulum64.np_sin lm B64.zero) with B64.zero.
    change (DoublePendulum64.np_cos lm B64.zero) with B64.one.
    change (B64.mul B64.two B64.zero) with B64.zero.
    apply b64_mul_zero_l; [exact Hz |].
    apply b64_add_zero_r.
    + apply b64_add_zero_l; [| assumption].
      apply b64_mul_zero_l; [| assumption].
      apply b64_mul_zero_l; [exact Hz | assumption].
    + apply b64_mul_zero_l; [| reflexivity].
      apply b64_mul_zero_l; [| assumption].
      apply b64_mul_zero_l; [exact Hz | assumption].
Qed.

(** C4, as it is stated, fails on binary64: with [L1 = L2 = g = 1.],
    [m1 = 1e-20] and [m2 = 1.], which are positive, the sum [2.*m1 + m2]
    rounds to [m2], both divisors are [0.0] and the angular accelerations
    of the state of rest are NaN. *)
Lemma pendulum_rest_nan_for_light_upper_bob :
  (B64.ltb B64.zero (DoublePendulum64.L1 light_upper_bob) = true /\
   B64.ltb B64.zero (DoublePendulum64.L2 light_upper_bob) = true /\
   B64.ltb B64.zero (DoublePendulum64.m1 light_upper_bob) = true /\
   B64.leb B64.zero (DoublePendulum64.m2 light_upper_bob) = true) /\
  forall (lm : DoublePendulum64.libm) (t : B64.t),
    DoublePendulum64.dy_dt lm light_upper_bob t rest64 =
    Ok [B64.zero; B64.nan; B64.zero; B64.nan].
Proof.
  split; [repeat split |]. intros lm t. vm_compute. reflexivity.
Qed.

(** C4, amended.  For parameters of moderate magnitude with [L1 > 0],
    [L2 > 0], [m1 > 0] and [0 <= m2 <= 1e6 * m1], and any [g] of moderate
    magnitude, [DoublePendulum.dy_dt] on the state of rest [(0, 0, 0, 0)]
    returns angular accelerations, at the indices 1 and 3, that are exactly
    zero.  On binary64 they are zeros for all parameters for which no
    product overflows and the divisors [L_i * (2.*m1 + m2 - m2)] are
    nonzero. *)
Theorem pendulum_rest_is_equilibrium_moderate :
  (forall (self : DoublePendulum.DoublePendulum) (t : R),
      moderate_pendulum self ->
      exists dy,
        DoublePendulum.dy_dt self t [0; 0; 0; 0] = Ok dy /\
        length dy = 4%nat /\
        nth_error dy 1 = Some (Num 0) /\
        nth_error dy 3 = Some (Num 0)) /\
  (forall (lm : DoublePendulum64.libm)
          (self : DoublePendulum64.DoublePendulum) (t : B64.t),
      DoublePendulum64.no_overflow_at_rest self = true ->
      B64.is_nonzero (DoublePendulum64.denom_1 lm self B64.zero B64.zero)
      = true ->
      B64.is_nonzero (DoublePendulum64.denom_2 lm self B64.zero B64.zero)
      = true ->
      exists a1 a2,
        DoublePendulum64.dy_dt lm self t rest64 =
        Ok [B64.zero; a1; B64.zero; a2] /\
        B64.is_zero a1 = true /\ B64.is_zero a2 = true).
Proof.
  split.
  - intros self t Hmod.
    destruct (moderate_pendulum_regime self Hmod) as (HL1 & HL2 & Hm1 & Hm2).
    pose proof (denom_factor_pos self 0 0 Hm1 Hm2) as Hf.
    rewrite pendulum_dy_dt_eq, numer_1_at_rest, numer_2_at_rest.
    rewrite !fdiv_nonzero by (unfold DoublePendulum.denom_1,
                                DoublePendulum.denom_2; nra).
    eexists. split; [reflexivity |]. cbn.
    unfold Rdiv. rewrite !Rmult_0_l. auto.
  - intros lm self t. apply pendulum64_rest.
Qed.

Lemma pendulum_rest_is_equilibrium_moderate_witness :
  (moderate_pendulum notebook_pendulum /\
   DoublePendulum64.no_overflow_at_rest notebook_pendulum64 = true /\
   B64.is_nonzero (DoublePendulum64.denom_1 stub_libm notebook_pendulum64
                                            B64.zero B64.zero) = true /\
   B64.is_nonzero (DoublePendulum64.denom_2 stub_libm notebook_pendulum64
                                            B64.zero B64.zero) = true) /\
  (exists dy,
      DoublePendulum.dy_dt notebook_pendulum 0 [0; 0; 0; 0] = Ok dy /\
      length dy = 4%nat /\
      nth_error dy 1 = Some (Num 0) /\
      nth_error dy 3 = Some (Num 0)) /\
  (exists a1 a2,
      DoublePendulum64.dy_dt stub_libm notebook_pendulum64 B64.zero rest64 =
      Ok [B64.zero; a1; B64.zero; a2] /\
      B64.is_zero a1 = true /\ B64.is_zero a2 = true).
Proof.
  destruct pendulum_rest_is_equilibrium_moderate as [Hexact Hb64].
  split; [split; [exact notebook_pendulum_moderate | repeat split] |].
  split.
  - exact (Hexact notebook_pendulum 0 notebook_pendulum_moderate).
  - apply (Hb64 stub_libm notebook_pendulum64 B64.zero); reflexivity.
Defined.

(** C5.  For some angles the divisors
    [L_i * (2*m1 + m2 - m2*cos(2*phi_1 - 2*phi_2))] of
    [DoublePendulum.dy_dt] vanish although the masses and lengths are
    positive: on binary64, with [m1 = 1e-20], [m2 = 1.] and unit lengths, at
    [phi_1 = phi_2 = 0] both divisors are [0.0], and the field, which has
    no guard, returns NaN for both angular accelerations. *)
Theorem pendulum_singular_angles_exist :
  exists (self : DoublePendulum64.DoublePendulum) (phi_1 phi_2 : B64.t),
    (B64.ltb B64.zero (DoublePendulum64.L1 self) = true /\
     B64.ltb B64.zero (DoublePendulum64.L2 self) = true /\
     B64.ltb B64.zero (DoublePendulum64.m1 self) = true /\
     B64.ltb B64.zero (DoublePendulum64.m2 self) = true) /\
    forall lm : DoublePendulum64.libm,
      DoublePendulum64.denom_1 lm self phi_1 phi_2 = B64.zero /\
      DoublePendulum64.denom_2 lm self phi_1 phi_2 = B64.zero /\
      forall t : B64.t,
        DoublePendulum64.dy_dt lm self t [phi_1; B64.zero; phi_2; B64.zero] =
        Ok [B64.zero; B64.nan; B64.zero; B64.nan].
Proof.
  exists light_upper_bob, B64.zero, B64.zero.
  split; [repeat split |]. intros lm.
  split; [vm_compute; reflexivity |].
  split; [vm_compute; reflexivity |].
  intros t. vm_compute. reflexivity.
Qed.

(** C6, as it is stated, fails on binary64: for the positive parameters
    [m1 = 1e-20], [m2 = 1.], [L1 = L2 = 1.] and aligned arms the factor
    [2.*m1 + m2 - m2*cos(2*y[0] - 2*y[2])] is [0.0]; it is not bounded below
    by [2*m1], not positive, and both divisors are zero. *)
Lemma pendulum_factor_zero_for_light_upper_bob :
  (B64.ltb B64.zero (DoublePendulum64.m1 light_upper_bob) = true /\
   B64.leb B64.zero (DoublePendulum64.m2 light_upper_bob) = true /\
   B64.ltb B64.zero (DoublePendulum64.L1 light_upper_bob) = true /\
   B64.ltb B64.zero (DoublePendulum64.L2 light_upper_bob) = true) /\
  forall lm : DoublePendulum64.libm,
    DoublePendulum64.denom_factor lm light_upper_bob B64.zero B64.zero
    = B64.zero /\
    B64.leb (B64.mul B64.two (DoublePendulum64.m1 light_upper_bob))
            (DoublePendulum64.denom_factor lm light_upper_bob
                                           B64.zero B64.zero) = false /\
    B64.ltb B64.zero
            (DoublePendulum64.denom_factor lm light_upper_bob
                                           B64.zero B64.zero) = false /\
    DoublePendulum64.denom_1 lm light_upper_bob B64.zero B64.zero
    = B64.zero /\
    DoublePendulum64.denom_2 lm light_upper_bob B64.zero B64.zero
    = B64.zero.
Proof.
  split; [repeat split |]. intros lm. vm_compute. repeat split.
Qed.

(** C6, amended.  For every state of four components of moderate magnitude
    and all parameters of moderate magnitude with [m1 > 0],
    [0 <= m2 <= 1e6 * m1], [L1 > 0] and [L2 > 0], the factor
    [2*m1 + m2 - m2*cos(2*y[0] - 2*y[2])] is at least [2*m1], hence
    positive; both divisors are nonzero and [DoublePendulum.dy_dt] returns
    four finite entries. *)
Theorem pendulum_denominator_positive_moderate
        (self : DoublePendulum.DoublePendulum) (t y0 y1 y2 y3 : R) :
  moderate_pendulum self ->
  moderate y0 -> moderate y1 -> moderate y2 -> moderate y3 ->
  2 * DoublePendulum.m1 self <= DoublePendulum.denom_factor self y0 y2 /\
  0 < DoublePendulum.denom_factor self y0 y2 /\
  DoublePendulum.denom_1 self y0 y2 <> 0 /\
  DoublePendulum.denom_2 self y0 y2 <> 0 /\
  DoublePendulum.dy_dt self t [y0; y1; y2; y3] =
  Ok [ Num y1;
       Num (DoublePendulum.numer_1 self y0 y1 y2 y3
            / DoublePendulum.denom_1 self y0 y2);
       Num y3;
       Num (DoublePendulum.numer_2 self y0 y1 y2 y3
            / DoublePendulum.denom_2 self y0 y2) ].
Proof.
  intros Hmod _ _ _ _.
  destruct (moderate_pendulum_regime self Hmod) as (HL1 & HL2 & Hm1 & Hm2).
  pose proof (denom_factor_lower_bound self y0 y2 Hm2) as Hlb.
  pose proof (denom_factor_pos self y0 y2 Hm1 Hm2) as Hf.
  assert (H1 : DoublePendulum.denom_1 self y0 y2 <> 0)
    by (unfold DoublePendulum.denom_1; nra).
  assert (H2 : DoublePendulum.denom_2 self y0 y2 <> 0)
    by (unfold DoublePendulum.denom_2; nra).
  repeat split; try assumption.
  now rewrite pendulum_dy_dt_eq, !fdiv_nonzero.
Qed.

Lemma pendulum_denominator_positive_moderate_witness :
  (moderate_pendulum notebook_pendulum /\
   moderate (PI / 2) /\ moderate 0 /\ moderate PI /\ moderate 0) /\
  2 * 1 <= DoublePendulum.denom_factor notebook_pendulum (PI / 2) PI /\
  0 < DoublePendulum.denom_factor notebook_pendulum (PI / 2) PI /\
  DoublePendulum.denom_1 notebook_pendulum (PI / 2) PI <> 0 /\
  DoublePendulum.denom_2 notebook_pendulum (PI / 2) PI <> 0 /\
  DoublePendulum.dy_dt notebook_pendulum 0 [PI / 2; 0; PI; 0] =
  Ok [ Num 0;
       Num (DoublePendulum.numer_1 notebook_pendulum (PI / 2) 0 PI 0
            / DoublePendulum.denom_1 notebook_pendulum (PI / 2) PI);
       Num 0;
       Num (DoublePendulum.numer_2 notebook_pendulum (PI / 2) 0 PI 0
            / DoublePendulum.denom_2 notebook_pendulum (PI / 2) PI) ].
Proof.
  pose proof PI_RGT_0 as Hpos. pose proof PI_4 as Hle.
  assert (Hhalf : moderate (PI / 2)) by (apply moderate_of_bounds; lra).
  assert (Hpi : moderate PI) by (apply moderate_of_bounds; lra).
  assert (Hzero : moderate 0) by (apply moderate_of_bounds; lra).
  split.
  - split; [exact notebook_pendulum_moderate | auto].
  - exact (pendulum_denominator_positive_moderate
             notebook_pendulum 0 (PI / 2) 0 PI 0
             notebook_pendulum_moderate Hhalf Hzero Hpi Hzero).
Defined.

(** C7, as it is stated, fails on binary64: two bodies [1e-200] apart are
    at distinct positions, yet the squared difference underflows, [dom] and
    [dom**3] are [0.0], and the accelerations are infinite or NaN. *)
Lemma orbit_zero_divisor_for_distinct_positions :
  B64.eqb B64.f_1e_200 B64.zero = false /\
  Orbit64.dom B64.f_1e_200 B64.zero B64.zero B64.zero = B64.zero /\
  B64.pow (Orbit64.dom B64.f_1e_200 B64.zero B64.zero B64.zero) 3
  = B64.zero /\
  Orbit64.dy_dt unit_orbit64 B64.zero close_bodies64 =
  Ok [ B64.zero; SpecFloat.S754_infinity true;
       B64.zero; B64.nan;
       B64.zero; SpecFloat.S754_infinity false;
       B64.zero; B64.nan ].
Proof. vm_compute. repeat split. Qed.

Lemma orbit_dy_dt_moderate (self : Orbit.Orbit)
      (t y0 y1 y2 y3 y4 y5 y6 y7 : R) :
  / 10 ^ 30 <= Orbit.dom y0 y2 y4 y6 ->
  exists dy,
    Orbit.dy_dt self t [y0; y1; y2; y3; y4; y5; y6; y7] = Ok dy /\
    forallb is_finite dy = true.
Proof.
  intros Hsep.
  assert (H : 0 < / 10 ^ 30) by (apply Rinv_0_lt_compat; lra).
  rewrite orbit_dy_dt_apart by lra.
  eexists. split; reflexivity.
Qed.

(** On binary64 a finite number minus itself is [+0.0]. *)
Lemma b64_sub_diag (x : B64.t) :
  B64.is_finite x = true -> B64.sub x x = B64.zero.
Proof.
  destruct x as [s | s | | s m e]; try discriminate; intros _.
  - now destruct s.
  - unfold B64.sub, SpecFloat.SFsub. rewrite Z.sub_diag. reflexivity.
Qed.

(** On binary64 [p * 0.0 / 0.0] is NaN whatever [p] is. *)
Lemma b64_zero_over_zero (p : B64.t) :
  B64.div (B64.mul p B64.zero) B64.zero = B64.nan.
Proof. destruct p as [s | s | | s m e]; reflexivity. Qed.

(** What the field returns on binary64 when the two positions coincide. *)
Lemma orbit64_dy_dt_coincident (self : Orbit64.Orbit)
      (t x y y1 y3 y5 y7 : B64.t) :
  B64.is_finite x = true -> B64.is_finite y = true ->
  Orbit64.dom x y x y = B64.zero /\
  Orbit64.dy_dt self t [x; y1; y; y3; x; y5; y; y7] =
  Ok [y1; B64.nan; y3; B64.nan; y5; B64.nan; y7; B64.nan].
Proof.
  intros Hx Hy.
  assert (Hd : Orbit64.dom x y x y = B64.zero).
  { unfold Orbit64.dom. rewrite !b64_sub_diag by assumption. reflexivity. }
  split; [exact Hd |].
  unfold Orbit64.dy_dt. cbn [getitem nth_error bind].
  rewrite Hd, !b64_sub_diag by assumption.
  change (B64.pow B64.zero 3) with B64.zero.
  now rewrite !b64_zero_over_zero.
Qed.

(** C7, amended.  [Orbit.dy_dt] divides by zero when the two positions
    coincide: then [dom] and [dom**3] are zero and each of the four
    accelerations is [0/0], NaN, in exact arithmetic and on binary64
    alike.  The converse holds in exact arithmetic only: on binary64
    distinct positions as close as [1e-200] give a zero divisor as
    well.  For positions at least [1e-30] apart, with
    coordinates, velocities, masses and [G] of moderate magnitude, no
    division by zero occurs and all eight entries are finite. *)
Theorem orbit_division_by_zero_when_coincident :
  (forall (self : Orbit.Orbit) (t x y y1 y3 y5 y7 : R),
      Orbit.dom x y x y = 0 /\
      Orbit.dom x y x y ^ 3 = 0 /\
      Orbit.dy_dt self t [x; y1; y; y3; x; y5; y; y7] =
      Ok [Num y1; NaN; Num y3; NaN; Num y5; NaN; Num y7; NaN]) /\
  (forall (self : Orbit64.Orbit) (t x y y1 y3 y5 y7 : B64.t),
      B64.is_finite x = true -> B64.is_finite y = true ->
      Orbit64.dom x y x y = B64.zero /\
      Orbit64.dy_dt self t [x; y1; y; y3; x; y5; y; y7] =
      Ok [y1; B64.nan; y3; B64.nan; y5; B64.nan; y7; B64.nan]) /\
  (B64.eqb B64.f_1e_200 B64.zero = false /\
   B64.pow (Orbit64.dom B64.f_1e_200 B64.zero B64.zero B64.zero) 3
   = B64.zero /\
   exists a1x a1y a2x a2y,
     Orbit64.dy_dt unit_orbit64 B64.zero close_bodies64 =
     Ok [B64.zero; a1x; B64.zero; a1y; B64.zero; a2x; B64.zero; a2y] /\
     forallb B64.is_finite [a1x; a1y; a2x; a2y] = false) /\
  (forall (self : Orbit.Orbit) (t y0 y1 y2 y3 y4 y5 y6 y7 : R),
      moderate_orbit self ->
      Forall moderate [y0; y1; y2; y3; y4; y5; y6; y7] ->
      / 10 ^ 30 <= Orbit.dom y0 y2 y4 y6 ->
      exists dy,
        Orbit.dy_dt self t [y0; y1; y2; y3; y4; y5; y6; y7] = Ok dy /\
        forallb is_finite dy = true).
Proof.
  split; [| split; [| split]].
  - intros self t x y y1 y3 y5 y7.
    split; [now apply dom_zero_iff |].
    split; [now apply dom_cube_zero_iff | apply orbit_dy_dt_coincident].
  - intros self t x y y1 y3 y5 y7. apply orbit64_dy_dt_coincident.
  - split; [reflexivity |]. split; [vm_compute; reflexivity |].
    do 4 eexists. vm_compute. split; reflexivity.
  - intros self t y0 y1 y2 y3 y4 y5 y6 y7 _ _ Hsep.
    now apply orbit_dy_dt_moderate.
Qed.

Lemma orbit_division_by_zero_when_coincident_witness :
  (moderate_orbit notebook_orbit /\
   Forall moderate notebook_orbit_state /\
   / 10 ^ 30 <= Orbit.dom 0.1 0 (- (20 / 1) * 0.1) (- (20 / 1) * 0)) /\
  (exists dy,
      Orbit.dy_dt notebook_orbit 0 notebook_orbit_state = Ok dy /\
      forallb is_finite dy = true) /\
  Orbit.dy_dt notebook_orbit 0 [0.1; 0; 0; 0.75; 0.1; 0; 0; -15] =
  Ok [Num 0; NaN; Num 0.75; NaN; Num 0; NaN; Num (-15); NaN].
Proof.
  destruct orbit_division_by_zero_when_coincident as (Hsame & _ & _ & Hapart).
  assert (Hm : moderate_orbit notebook_orbit)
    by (repeat split; apply moderate_of_bounds; cbn; lra).
  assert (Hy : Forall moderate notebook_orbit_state)
    by (try unfold notebook_orbit_state; cbn [app]; moderate_entries).
  assert (Hsep : / 10 ^ 30
                 <= Orbit.dom 0.1 0 (- (20 / 1) * 0.1) (- (20 / 1) * 0)).
  { apply Rle_trans with 1.
    - rewrite <- Rinv_1. apply Rinv_le_contravar; lra.
    - rewrite <- sqrt_1 at 1. unfold Orbit.dom. apply sqrt_le_1_alt. lra. }
  split; [auto |].
  split.
  - exact (Hapart notebook_orbit 0 _ _ _ _ _ _ _ _ Hm Hy Hsep).
  - apply Hsame.
Defined.

(** * Subscripts out of range *)

(** X1.  On states whose components are of moderate magnitude
    [Orbit.dy_dt] raises [IndexError] exactly when the state has fewer than
    eight components; on a longer state it returns eight entries and reads
    the first eight components only. *)
Theorem orbit_dy_dt_index_error (self : Orbit.Orbit) (t : R) (y : list R) :
  Forall moderate y ->
  (Orbit.dy_dt self t y = Raise IndexError <-> (length y < 8)%nat) /\
  ((8 <= length y)%nat ->
   exists dy,
     Orbit.dy_dt self t y = Ok dy /\
     length dy = 8%nat /\
     Orbit.dy_dt self t (firstn 8 y) = Ok dy).
Proof.
  intros _.
  do 8 (destruct y as [| ? y];
        [ cbn; repeat split; (lia || discriminate || auto) |]).
  rewrite orbit_dy_dt_ignores_tail. cbn [firstn length].
  split; [split; [discriminate | lia] |].
  intros _. eexists. repeat split.
Qed.

Lemma orbit_dy_dt_index_error_witness :
  (Forall moderate [0.1; 0; 0; 0.75; -2; 0; 0] /\
   Forall moderate (notebook_orbit_state ++ [1; 2])) /\
  Orbit.dy_dt notebook_orbit 0 [0.1; 0; 0; 0.75; -2; 0; 0] = Raise IndexError /\
  exists dy,
    Orbit.dy_dt notebook_orbit 0 (notebook_orbit_state ++ [1; 2]) = Ok dy /\
    length dy = 8%nat /\
    Orbit.dy_dt notebook_orbit 0 (firstn 8 (notebook_orbit_state ++ [1; 2]))
    = Ok dy.
Proof.
  assert (Hshort : Forall moderate [0.1; 0; 0; 0.75; -2; 0; 0])
    by (try unfold notebook_orbit_state; cbn [app]; moderate_entries).
  assert (Hlong : Forall moderate (notebook_orbit_state ++ [1; 2]))
    by (try unfold notebook_orbit_state; cbn [app]; moderate_entries).
  split; [split; assumption |].
  split.
  - apply (orbit_dy_dt_index_error notebook_orbit 0 _ Hshort). cbn. lia.
  - apply (orbit_dy_dt_index_error notebook_orbit 0 _ Hlong). cbn. lia.
Defined.

(** X7.  On states whose components are of moderate magnitude
    [DoublePendulum.dy_dt] raises [IndexError] exactly when the state has
    fewer than four components; on a longer state it returns four entries
    and reads the first four components only. *)
Theorem pendulum_dy_dt_index_error (self : DoublePendulum.DoublePendulum)
        (t : R) (y : list R) :
  Forall moderate y ->
  (DoublePendulum.dy_dt self t y = Raise IndexError <-> (length y < 4)%nat) /\
  ((4 <= length y)%nat ->
   exists dy,
     DoublePendulum.dy_dt self t y = Ok dy /\
     length dy = 4%nat /\
     DoublePendulum.dy_dt self t (firstn 4 y) = Ok dy).
Proof.
  intros _.
  do 4 (destruct y as [| ? y];
        [ cbn; repeat split; (lia || discriminate || auto) |]).
  rewrite pendulum_dy_dt_ignores_tail. cbn [firstn length].
  split; [split; [discriminate | lia] |].
  intros _. eexists. repeat split.
Qed.

Lemma pendulum_dy_dt_index_error_witness :
  (Forall moderate [PI / 2; 0; PI] /\
   Forall moderate [PI / 2; 0; PI; 0; 7]) /\
  DoublePendulum.dy_dt notebook_pendulum 0 [PI / 2; 0; PI] = Raise IndexError /\
  exists dy,
    DoublePendulum.dy_dt notebook_pendulum 0 [PI / 2; 0; PI; 0; 7] = Ok dy /\
    length dy = 4%nat /\
    DoublePendulum.dy_dt notebook_pendulum 0 (firstn 4 [PI / 2; 0; PI; 0; 7])
    = Ok dy.
Proof.
  pose proof PI_RGT_0 as Hpos. pose proof PI_4 as Hle.
  assert (Hshort : Forall moderate [PI / 2; 0; PI])
    by (try unfold notebook_orbit_state; cbn [app]; moderate_entries).
  assert (Hlong : Forall moderate [PI / 2; 0; PI; 0; 7])
    by (try unfold notebook_orbit_state; cbn [app]; moderate_entries).
  split; [split; assumption |].
  split.
  - apply (pendulum_dy_dt_index_error notebook_pendulum 0 _ Hshort). cbn. lia.
  - apply (pendulum_dy_dt_index_error notebook_pendulum 0 _ Hlong). cbn. lia.
Defined.
